(** * Folder-to-tag: derivation of folder tags and their reconciliation

    A shallow embedding of the plugin's [main.ts] in its two revisions:

    - [Frontmatter]: the current revision (the one [main.js] is built from),
      which edits the note's metadata through the host's
      [processFrontMatter];
    - [RawText]: the earlier revision, which edits the note's text itself
      (a [---] block parsed with js-yaml, or an inline [tags::] line).

    JavaScript strings are modelled by [string]; the characters considered
    are the ASCII ones, so the white space of [trim] and of [\s] is
    TAB, LF, VT, FF, CR and SPACE, and the line terminators of [.] and of
    [^]/[$] under the [m] flag are LF and CR. *)

From Stdlib Require Import Ascii ZArith DecimalString.
From stdpp Require Import base strings list gmap.

Set Warnings "-register-all".
Local Open Scope string_scope.
Local Open Scope list_scope.

(** ** JavaScript string and array primitives used by the plugin *)

Module JS.

Definition is_white_space (c : ascii) : bool :=
  match nat_of_ascii c with
  | 9 | 10 | 11 | 12 | 13 | 32 => true
  | _ => false
  end.

Definition is_line_terminator (c : ascii) : bool :=
  match nat_of_ascii c with
  | 10 | 13 => true
  | _ => false
  end.

(** [s.trimStart()] *)
Fixpoint trimStart (s : string) : string :=
  match s with
  | "" => ""
  | String c s' => if is_white_space c then trimStart s' else s
  end.

(** [s.trimEnd()] *)
Fixpoint trimEnd (s : string) : string :=
  match s with
  | "" => ""
  | String c s' =>
      match trimEnd s' with
      | "" => if is_white_space c then "" else String c ""
      | t => String c t
      end
  end.

(** [s.trim()] *)
Definition trim (s : string) : string := trimEnd (trimStart s).

(** [s.split(sep)] for a one-character separator: never empty,
    [("").split(sep)] is [[""]]. *)
Fixpoint split (sep : ascii) (s : string) : list string :=
  match s with
  | "" => [""]
  | String c s' =>
      if Ascii.eqb c sep then "" :: split sep s'
      else match split sep s' with
           | [] => [String c ""]
           | w :: ws => String c w :: ws
           end
  end.

(** [l.join(sep)] on an array of strings *)
Fixpoint join (sep : string) (l : list string) : string :=
  match l with
  | [] => ""
  | [x] => x
  | x :: xs => x +:+ sep +:+ join sep xs
  end.

(** [l.includes(t)] on an array of strings *)
Definition includes (l : list string) (t : string) : bool :=
  existsb (String.eqb t) l.

(** [l.slice(0, -1)] *)
Definition slice_0_m1 {A} (l : list A) : list A := take (length l - 1) l.

(** [l[i]] read inside a string concatenation: a hole prints as
    [undefined]. *)
Definition at_ (l : list string) (i : nat) : string :=
  default "undefined" (l !! i).

(** [starts_with p s]: the rest of [s] after the prefix [p], if any. *)
Fixpoint strip_prefix (p s : string) : option string :=
  match p, s with
  | "", _ => Some s
  | String a p', String b s' =>
      if Ascii.eqb a b then strip_prefix p' s' else None
  | _, _ => None
  end.

(** First occurrence of [pat] in [s]: what comes before and after it. *)
Fixpoint find_sub (pat s : string) : option (string * string) :=
  match strip_prefix pat s with
  | Some rest => Some ("", rest)
  | None =>
      match s with
      | "" => None
      | String c s' =>
          match find_sub pat s' with
          | Some (before, after) => Some (String c before, after)
          | None => None
          end
      end
  end.

End JS.

(** ** Values of a metadata block *)

(** What the YAML parser hands over: numbers are kept to the integers
    (printed in decimal, as JavaScript prints them below 1e21). *)
Inductive yaml_value : Type :=
  | YNull
  | YBool (b : bool)
  | YInt (z : Z)
  | YStr (s : string)
  | YSeq (l : list yaml_value)
  | YMap (m : gmap string yaml_value).

(** [String(v)] *)
Fixpoint js_String (v : yaml_value) : string :=
  match v with
  | YNull => "null"
  | YBool true => "true"
  | YBool false => "false"
  | YInt z => NilZero.string_of_int (Z.to_int z)
  | YStr s => s
  | YSeq l =>
      JS.join ","
        (map (fun e => match e with YNull => "" | _ => js_String e end) l)
  | YMap _ => "[object Object]"
  end.

(** Truthiness, as [v || {}] tests it *)
Definition truthy (v : yaml_value) : bool :=
  match v with
  | YNull => false
  | YBool b => b
  | YInt z => negb (z =? 0)%Z
  | YStr s => negb (String.eqb s "")
  | YSeq _ | YMap _ => true
  end.

(** ** Settings and the derivation of folder tags *)

Inductive FolderDepth := Depth1 | Depth2split | Depth2single | DepthFull.

Record FolderTagPluginSettings := {
  folderDepth : FolderDepth;
  tagPrefix : string;
  tagSuffix : string;
  (* the earlier revision only *)
  overrideExisting : bool
}.

Definition DEFAULT_SETTINGS : FolderTagPluginSettings :=
  {| folderDepth := Depth1; tagPrefix := ""; tagSuffix := "";
     overrideExisting := false |}.

Inductive Action := Create | Move | Rerun.

Definition is_move_or_rerun (a : Action) : bool :=
  match a with Move | Rerun => true | Create => false end.

(** [oldPath?: string] used as a condition: absent and [""] are falsy. *)
Definition path_supplied (oldPath : option string) : bool :=
  match oldPath with
  | Some p => negb (String.eqb p "")
  | None => false
  end.

(** The [switch (folderDepth)] shared by both revisions, on the folder
    segments [parts] of a path. *)
Definition tags_of_parts (settings : FolderTagPluginSettings)
    (parts : list string) : list string :=
  if (length parts =? 0)%nat then [] else
  let pre := tagPrefix settings in
  let suf := tagSuffix settings in
  let n := length parts in
  match folderDepth settings with
  | Depth1 => [pre +:+ JS.at_ parts (n - 1) +:+ suf]
  | Depth2split =>
      if (2 <=? n)%nat then
        [pre +:+ JS.at_ parts (n - 1) +:+ suf;
         pre +:+ JS.at_ parts (n - 2) +:+ suf]
      else [pre +:+ JS.at_ parts (n - 1) +:+ suf]
  | Depth2single =>
      if (2 <=? n)%nat then
        [pre +:+ JS.at_ parts (n - 2) +:+ "/" +:+ JS.at_ parts (n - 1) +:+ suf]
      else [pre +:+ JS.at_ parts (n - 1) +:+ suf]
  | DepthFull => [pre +:+ JS.join "/" parts +:+ suf]
  end.

(** [if (!existingTags.includes(t)) existingTags.push(t)] *)
Definition push_absent (acc : list string) (t : string) : list string :=
  if JS.includes acc t then acc else (acc ++ [t])%list.

(** [folderTags.forEach(t => ...)] over the accumulator *)
Definition add_folder_tags (existingTags folderTags : list string)
    : list string :=
  fold_left push_absent folderTags existingTags.

(** [existingTags.filter(t => !tags.includes(t))] *)
Definition without (tags existingTags : list string) : list string :=
  List.filter (fun t => negb (JS.includes tags t)) existingTags.

(** ** The host: notes, notices, and operations that may throw *)

(** The metadata block of a note as the host parses it; a note without a
    block has the empty mapping. *)
Inductive fm_state :=
  | Parsed (yaml : gmap string yaml_value)
  | Malformed (raw : string).

Record document := { fm : fm_state; body : string }.

Record TFile := { path : string }.

(** The vault lists its notes in a fixed order, which is the order of the
    bulk passes. *)
Record world := {
  vault : list (string * document);
  notices : list string;
  console : list string
}.

Inductive outcome (A : Type) :=
  | Done (a : A)
  | Thrown (e : string).
Arguments Done {A} a.
Arguments Thrown {A} e.

(** An [async] computation: it reads and updates the world and either
    completes or rejects. *)
Definition M (A : Type) : Type := world -> outcome A * world.

Global Instance M_ret : MRet M := fun A a w => (Done a, w).

Global Instance M_bind : MBind M := fun A B k m w =>
  match m w with
  | (Done a, w') => k a w'
  | (Thrown e, w') => (Thrown e, w')
  end.

(** [try { m } catch (e) { h e }] *)
Definition try_catch {A} (m : M A) (h : string -> M A) : M A :=
  fun w =>
    match m w with
    | (Done a, w') => (Done a, w')
    | (Thrown e, w') => h e w'
    end.

(** [for (const x of xs) { await f x }] *)
Fixpoint for_of {A} (xs : list A) (f : A -> M unit) : M unit :=
  match xs with
  | [] => mret tt
  | x :: xs' => f x ;; for_of xs' f
  end.

(** [new Notice(msg)] and [console.error(...)] *)
Definition Notice (msg : string) : M unit :=
  fun w => (Done tt,
            {| vault := vault w; notices := notices w ++ [msg];
               console := console w |}).

Definition console_error (msg : string) : M unit :=
  fun w => (Done tt,
            {| vault := vault w; notices := notices w;
               console := console w ++ [msg] |}).

Fixpoint vault_get (p : string) (v : list (string * document))
    : option document :=
  match v with
  | [] => None
  | (q, d) :: v' => if String.eqb p q then Some d else vault_get p v'
  end.

Fixpoint vault_set (p : string) (d : document) (v : list (string * document))
    : list (string * document) :=
  match v with
  | [] => []
  | (q, d') :: v' =>
      if String.eqb p q then (q, d) :: v' else (q, d') :: vault_set p d v'
  end.

(** [this.app.vault.getMarkdownFiles()] *)
Definition getMarkdownFiles : M (list TFile) :=
  fun w => (Done (map (fun e => {| path := fst e |}) (vault w)), w).

(** Modelled from the spec: the host's [processFrontMatter] (section 6,
    a transactional mutation of the structured metadata): the mutator
    receives the parsed mapping and the host persists what it leaves; the
    body of the note is not touched. The call rejects when the note is
    gone or its block cannot be parsed. *)
Definition processFrontMatter (file : TFile)
    (fn : gmap string yaml_value -> gmap string yaml_value) : M unit :=
  fun w =>
    match vault_get (path file) (vault w) with
    | None => (Thrown "file not found", w)
    | Some d =>
        match fm d with
        | Malformed _ => (Thrown "cannot parse the metadata block", w)
        | Parsed yaml =>
            (Done tt,
             {| vault := vault_set (path file)
                           {| fm := Parsed (fn yaml); body := body d |}
                           (vault w);
                notices := notices w; console := console w |})
        end
    end.

(** ** The current revision: metadata edited through the host *)

Module Frontmatter.
Section Plugin.

(** The host's [normalizePath]. *)
Variable normalizePath : string -> string.
Variable settings : FolderTagPluginSettings.

Definition getFolderTagsFromPath (p : string) : list string :=
  let normalized := normalizePath p in
  let parts := JS.slice_0_m1 (JS.split "/" normalized) in
  tags_of_parts settings parts.

Definition getFolderTags (file : TFile) : list string :=
  getFolderTagsFromPath (path file).

(** The [existingTags] read from [yaml.tags]: the entries of an array
    through [String(t).trim()], the pieces of a comma-separated string
    trimmed, nothing otherwise. *)
Definition existing_tags (yaml : gmap string yaml_value) : list string :=
  match yaml !! "tags" with
  | Some (YSeq l) => map (fun t => JS.trim (js_String t)) l
  | Some (YStr s) => map JS.trim (JS.split "," s)
  | _ => []
  end.

(** The function handed to [processFrontMatter] by [applyFolderTag]. Its
    opening test, [if (!yaml || typeof yaml !== "object") return], never
    fires on the mapping the host passes. *)
Definition apply_mutator (folderTags : list string) (action : Action)
    (oldPath : option string) (yaml : gmap string yaml_value)
    : gmap string yaml_value :=
  let existingTags := existing_tags yaml in
  let existingTags :=
    if is_move_or_rerun action && path_supplied oldPath then
      let oldTags := getFolderTagsFromPath (default "" oldPath) in
      without oldTags existingTags
    else existingTags in
  let existingTags := add_folder_tags existingTags folderTags in
  <["tags" := YSeq (map YStr existingTags)]> yaml.

Definition applyFolderTag (file : TFile) (action : Action)
    (oldPath : option string) : M unit :=
  let folderTags := getFolderTags file in
  if (length folderTags =? 0)%nat then mret tt
  else processFrontMatter file (apply_mutator folderTags action oldPath).

(** The function handed to [processFrontMatter] by [removeFolderTags]. *)
Definition remove_mutator (folderTags : list string)
    (yaml : gmap string yaml_value) : gmap string yaml_value :=
  let existingTags := existing_tags yaml in
  let existingTags := without folderTags existingTags in
  if (length existingTags =? 0)%nat then delete "tags" yaml
  else <["tags" := YSeq (map YStr existingTags)]> yaml.

Definition removeFolderTags (file : TFile) : M unit :=
  let folderTags := getFolderTags file in
  if (length folderTags =? 0)%nat then mret tt
  else processFrontMatter file (remove_mutator folderTags).

(** The button "Reapply to all notes". *)
Definition reapply_onClick : M unit :=
  Notice "Updating all notes..." ;;
  files ← getMarkdownFiles ;
  for_of files (fun file =>
    try_catch (applyFolderTag file Rerun None)
      (fun e =>
         console_error ("Failed for file: " +:+ path file +:+ " " +:+ e) ;;
         Notice ("Failed to process: " +:+ path file))) ;;
  Notice "Folder tags updated for all notes!".

(** The button "Remove folder tags". *)
Definition remove_onClick : M unit :=
  Notice "Removing folder tags from all notes..." ;;
  files ← getMarkdownFiles ;
  for_of files (fun file => removeFolderTags file) ;;
  Notice "All folder tags removed!".

(** The vault events. *)
Definition on_create (file : TFile) : M unit :=
  applyFolderTag file Create None.

Definition on_rename (file : TFile) (oldPath : string) : M unit :=
  applyFolderTag file Move (Some oldPath).

End Plugin.
End Frontmatter.

(** ** The earlier revision: the text of the note edited directly *)

Module RawText.

Definition LF : string := String "010"%char "".

(** *** The two regular expressions *)

(** [/^---\n([\s\S]*?)\n---/]: the text must open with the fence; the
    lazy group stops at the first closing fence. Gives the group and
    what follows the match. *)
Definition match_yaml (content : string) : option (string * string) :=
  match JS.strip_prefix ("---" +:+ LF) content with
  | Some inner => JS.find_sub (LF +:+ "---") inner
  | None => None
  end.

(** A backtracking matcher for the pieces of
    [/^tags\s*::?\s*(.+)$/m], each taking the matcher of what follows;
    a result is the group and the text after the match. *)
Definition cont : Type := string -> option (string * string).

Definition re_lit (p : string) (k : cont) : cont :=
  fun s => match JS.strip_prefix p s with Some r => k r | None => None end.

(** [\s*], greedy: the longest run first, then shorter ones. *)
Fixpoint re_ws_star (k : cont) (s : string) : option (string * string) :=
  match s with
  | String c s' =>
      if JS.is_white_space c then
        match re_ws_star k s' with
        | Some r => Some r
        | None => k s
        end
      else k s
  | "" => k s
  end.

(** [p?], greedy. *)
Definition re_opt (p : string) (k : cont) : cont :=
  fun s => match re_lit p k s with Some r => Some r | None => k s end.

(** The longest run of characters [.] accepts, and the rest. *)
Fixpoint take_line (s : string) : string * string :=
  match s with
  | "" => ("", "")
  | String c s' =>
      if JS.is_line_terminator c then ("", s)
      else let (l, r) := take_line s' in (String c l, r)
  end.

(** [(.+)$] closing the pattern: after the longest run the position is
    the end of a line, and no shorter run ends at one. *)
Definition re_dot_plus_eol : cont :=
  fun s => match take_line s with
           | ("", _) => None
           | (g, r) => Some (g, r)
           end.

Definition match_inline_here : cont :=
  re_lit "tags" (re_ws_star (re_lit ":" (re_opt ":"
    (re_ws_star re_dot_plus_eol)))).

(** The leftmost match: [^] holds at the start of the text and after a
    line terminator. Gives the text before the match, the group, and
    the text after the match. *)
Fixpoint search_inline (bol : bool) (s : string)
    : option (string * string * string) :=
  match (if bol then match_inline_here s else None) with
  | Some (g, r) => Some ("", g, r)
  | None =>
      match s with
      | "" => None
      | String c s' =>
          match search_inline (JS.is_line_terminator c) s' with
          | Some (b, g, r) => Some (String c b, g, r)
          | None => None
          end
      end
  end.

Definition match_inline (content : string)
    : option (string * string * string) :=
  search_inline true content.

(** The replacement text of [content.replace(re, newLine)] for a
    pattern with one group: [$$], [$&], [$`], [$'], [$1] and [$01] are
    expanded, any other [$] stays. *)
Fixpoint expand (matched before after group : string) (repl : string)
    : string :=
  let go := expand matched before after group in
  match repl with
  | "" => ""
  | String c r =>
      if negb (Ascii.eqb c "$") then String c (go r) else
      match r with
      | "" => "$"
      | String d r' =>
          if Ascii.eqb d "$" then "$" +:+ go r'
          else if Ascii.eqb d "&" then matched +:+ go r'
          else if Ascii.eqb d "`" then before +:+ go r'
          else if Ascii.eqb d "'" then after +:+ go r'
          else if Ascii.eqb d "1" then group +:+ go r'
          else if Ascii.eqb d "0" then
            match r' with
            | String e r'' =>
                if Ascii.eqb e "1" then group +:+ go r''
                else "$" +:+ go r
            | "" => "$" +:+ go r
            end
          else "$" +:+ go r
      end
  end.

(** [content.replace(inlineTagRegex, newLine)] when the pattern matched
    with [before], [group] and [after]. *)
Definition replace_inline (content before group after newLine : string)
    : string :=
  let matched :=
    String.substring (String.length before)
      (String.length content - String.length before - String.length after)
      content in
  before +:+ expand matched before after group newLine +:+ after.

(** *** js-yaml and the values it loads *)

Inductive load_result :=
  | LoadThrows
  | Loaded (v : yaml_value).

(** [yamlObj.tags] read on what was loaded *)
Definition get_tags (yamlObj : yaml_value) : option yaml_value :=
  match yamlObj with
  | YMap m => m !! "tags"
  | _ => None
  end.

(** [yamlObj.tags = tags]: a mapping gets the key, an array takes the
    property without showing it among its items, a primitive makes the
    assignment throw (the module is strict code). *)
Definition set_tags (yamlObj : yaml_value) (tags : list yaml_value)
    : option yaml_value :=
  match yamlObj with
  | YMap m => Some (YMap (<["tags" := YSeq tags]> m))
  | YSeq l => Some (YSeq l)
  | _ => None
  end.

(** [v === t] and [tags.includes(t)] for a string [t] *)
Definition strict_eq_str (v : yaml_value) (t : string) : bool :=
  match v with
  | YStr s => String.eqb s t
  | _ => false
  end.

Definition includes_str (tags : list yaml_value) (t : string) : bool :=
  existsb (fun v => strict_eq_str v t) tags.

(** [folderTags.includes(v)] for a loaded value [v] *)
Definition str_includes (folderTags : list string) (v : yaml_value) : bool :=
  existsb (strict_eq_str v) folderTags.

(** What an operation does to the note. *)
Inductive effect :=
  | NoWrite
  | Modify (newContent : string)
  | Rejects.

(** [oldPath.split("/").slice(-2, -1)[0]]: the folder holding the note,
    [undefined] without one. *)
Definition old_folder (oldPath : string) : option string :=
  let segs := JS.split "/" oldPath in
  if (2 <=? length segs)%nat then segs !! (length segs - 2) else None.

(** [(action === "move" || action === "rerun") && oldPath] *)
Definition strips (action : Action) (oldPath : option string) : bool :=
  is_move_or_rerun action && path_supplied oldPath.

(** [t !== oldFolder] *)
Definition is_old_folder (oldPath : option string) (t : string) : bool :=
  match old_folder (default "" oldPath) with
  | Some o => String.eqb t o
  | None => false
  end.

(** The tags written on the inline line by [applyFolderTag]: the pieces
    of the group trimmed, without the old folder on a move, then the
    derived tags that are missing. *)
Definition inline_tags (folderTags : list string) (action : Action)
    (oldPath : option string) (group : string) : list string :=
  let tags := map JS.trim (JS.split "," group) in
  let tags :=
    if strips action oldPath then
      List.filter (fun t => negb (is_old_folder oldPath t)) tags
    else tags in
  add_folder_tags tags folderTags.

(** The tags stored in the block by [applyFolderTag]: the array under
    [tags] (nothing when it is not an array), without the old folder on a
    move, then the derived tags that are missing. *)
Definition block_tags (folderTags : list string) (action : Action)
    (oldPath : option string) (yamlObj : yaml_value) : list yaml_value :=
  let tags := match get_tags yamlObj with Some (YSeq l) => l | _ => [] end in
  let tags :=
    if strips action oldPath then
      List.filter
        (fun t => negb (match old_folder (default "" oldPath) with
                        | Some o => strict_eq_str t o
                        | None => false
                        end)) tags
    else tags in
  fold_left
    (fun (acc : list yaml_value) (t : string) =>
       if includes_str acc t then acc else (acc ++ [YStr t])%list)
    folderTags tags.

(** [---\ntags:\n  - t1\n  - t2\n---\n] *)
Definition new_block (folderTags : list string) : string :=
  "---" +:+ LF +:+ "tags:" +:+ LF
  +:+ JS.join LF (map (fun t => "  - " +:+ t) folderTags)
  +:+ LF +:+ "---" +:+ LF.

(** [(action !== "create" || this.settings.overrideExisting)] *)
Definition gate (settings : FolderTagPluginSettings) (action : Action) : bool :=
  negb (match action with Create => true | _ => false end)
  || overrideExisting settings.

(** Whether [c] occurs in [s]. *)
Fixpoint has_char (c : ascii) (s : string) : bool :=
  match s with
  | "" => false
  | String a s' => Ascii.eqb a c || has_char c s'
  end.

Section Plugin.

(** [jsyaml.load] and [jsyaml.dump(_, { lineWidth: -1 })] *)
Variable jsyaml_load : string -> load_result.
Variable jsyaml_dump : yaml_value -> string.
Variable settings : FolderTagPluginSettings.

Definition getFolderTags (file : TFile) : list string :=
  let pathParts := JS.slice_0_m1 (JS.split "/" (path file)) in
  tags_of_parts settings pathParts.

(** [try { yamlObj = jsyaml.load(yamlStr) || {} } catch (e) { ... }] *)
Definition load_or_empty (yamlStr : string) : yaml_value :=
  match jsyaml_load yamlStr with
  | LoadThrows => YMap ∅
  | Loaded v => if truthy v then v else YMap ∅
  end.

(** [---\n${newYaml}\n---\n${body}] *)
Definition with_block (yamlObj : yaml_value) (body : string) : string :=
  "---" +:+ LF +:+ JS.trim (jsyaml_dump yamlObj) +:+ LF +:+ "---" +:+ LF
    +:+ body.

Definition applyFolderTag (file : TFile) (action : Action)
    (oldPath : option string) (content : string) : effect :=
  let folderTags := getFolderTags file in
  if (length folderTags =? 0)%nat then NoWrite else
  match (if gate settings action then match_yaml content else None) with
  | Some (yamlStr, rest) =>
      (* --- YAML frontmatter --- *)
      let body := JS.trimStart rest in
      let yamlObj := load_or_empty yamlStr in
      let tags := block_tags folderTags action oldPath yamlObj in
      match set_tags yamlObj tags with
      | Some yamlObj' => Modify (with_block yamlObj' body)
      | None => Rejects
      end
  | None =>
      match (if gate settings action then match_inline content else None) with
      | Some (before, group, after) =>
          (* --- Inline tags --- *)
          let tags := inline_tags folderTags action oldPath group in
          let newLine := "tags:: " +:+ JS.join ", " tags in
          Modify (replace_inline content before group after newLine)
      | None =>
          (* --- No tags found: insert YAML frontmatter --- *)
          Modify (new_block folderTags +:+ JS.trimStart content)
      end
  end.

Definition removeFolderTags (file : TFile) (content : string) : effect :=
  let folderTags := getFolderTags file in
  if (length folderTags =? 0)%nat then NoWrite else
  match match_yaml content with
  | Some (yamlStr, rest) =>
      let body := JS.trimStart rest in
      let yamlObj := load_or_empty yamlStr in
      let yamlObj :=
        match yamlObj, get_tags yamlObj with
        | YMap m, Some (YSeq l) =>
            YMap (<["tags" :=
                      YSeq (List.filter
                              (fun t => negb (str_includes folderTags t)) l)]>
                    m)
        | _, _ => yamlObj
        end in
      Modify (with_block yamlObj body)
  | None =>
      match match_inline content with
      | Some (before, group, after) =>
          let tags :=
            List.filter (fun t => negb (JS.includes folderTags t))
              (map JS.trim (JS.split "," group)) in
          let newLine := "tags:: " +:+ JS.join ", " tags in
          Modify (replace_inline content before group after newLine)
      | None => NoWrite
      end
  end.

End Plugin.
End RawText.


(** ** What a note holds after an operation *)

(** The value under [tags] in the metadata of the note at [p]. *)
Definition tag_field (p : string) (w : world) : option yaml_value :=
  match vault_get p (vault w) with
  | Some d => match fm d with
              | Parsed yaml => yaml !! "tags"
              | Malformed _ => None
              end
  | None => None
  end.

(** How often [t] occurs in [l]. *)
Definition occurrences (t : string) (l : list string) : nat :=
  length (List.filter (String.eqb t) l).

(** The tags [applyFolderTag] strips before it adds the derived ones:
    those derived from the old path when the action is a move or a rerun
    and an old path is supplied, none otherwise. *)
Definition stale_set (normalizePath : string -> string)
    (settings : FolderTagPluginSettings) (action : Action)
    (oldPath : option string) : list string :=
  if is_move_or_rerun action && path_supplied oldPath then
    Frontmatter.getFolderTagsFromPath normalizePath settings
      (default "" oldPath)
  else [].

(** A string without white space at either end. *)
Definition trimmed (s : string) : Prop :=
  (∀ c s', s = String c s' → JS.is_white_space c = false)
  ∧ (∀ s' c, s = s' +:+ String c "" → JS.is_white_space c = false).

(** The same settings under another depth mode. *)
Definition with_depth (depth : FolderDepth) (st : FolderTagPluginSettings)
    : FolderTagPluginSettings :=
  {| folderDepth := depth; tagPrefix := tagPrefix st;
     tagSuffix := tagSuffix st; overrideExisting := overrideExisting st |}.

(** A world holding the notes [v] and nothing said yet. *)
Definition quiet (v : list (string * document)) : world :=
  {| vault := v; notices := []; console := [] |}.

(** A note whose metadata is the single key [tags]. *)
Definition tagged (tags : yaml_value) (text : string) : document :=
  {| fm := Parsed {[ "tags" := tags ]}; body := text |}.

(** What a bulk reapply is to leave of one listed note: a note in a
    folder whose block the host can parse gets the mutator of a rerun
    applied to its metadata, any other note stays as it is. *)
Definition reapplied (normalizePath : string -> string)
    (settings : FolderTagPluginSettings) (e : string * document)
    : string * document :=
  let tags :=
    Frontmatter.getFolderTags normalizePath settings {| path := e.1 |} in
  match tags, fm e.2 with
  | _ :: _, Parsed yaml =>
      (e.1,
       {| fm := Parsed (Frontmatter.apply_mutator normalizePath settings tags
                          Rerun None yaml);
          body := body e.2 |})
  | _, _ => e
  end.

(** What a bulk removal is to leave of one listed note. *)
Definition removed (normalizePath : string -> string)
    (settings : FolderTagPluginSettings) (e : string * document)
    : string * document :=
  let tags :=
    Frontmatter.getFolderTags normalizePath settings {| path := e.1 |} in
  match tags, fm e.2 with
  | _ :: _, Parsed yaml =>
      (e.1,
       {| fm := Parsed (Frontmatter.remove_mutator tags yaml);
          body := body e.2 |})
  | _, _ => e
  end.

(** The listed notes a bulk pass fails on: those in a folder whose block
    the host cannot parse. *)
Definition unparsable (normalizePath : string -> string)
    (settings : FolderTagPluginSettings) (v : list (string * document))
    : list string :=
  flat_map
    (fun e =>
       match Frontmatter.getFolderTags normalizePath settings
               {| path := e.1 |}, fm e.2 with
       | _ :: _, Malformed _ => [e.1]
       | _, _ => []
       end) v.

(** Strings of white space only, strings without a line terminator,
    and the two ends of a line: a text that is empty or opens with a line
    terminator, a text that is empty or closes with one. *)
Fixpoint all_white (s : string) : bool :=
  match s with
  | "" => true
  | String c s' => JS.is_white_space c && all_white s'
  end.

Fixpoint one_line (s : string) : bool :=
  match s with
  | "" => true
  | String c s' => negb (JS.is_line_terminator c) && one_line s'
  end.

Definition at_line_end (after : string) : bool :=
  match after with
  | "" => true
  | String c _ => JS.is_line_terminator c
  end.

Definition at_line_start (before : string) : Prop :=
  before = ""
  ∨ ∃ b c, before = b +:+ String c "" ∧ JS.is_line_terminator c = true.

(** Texts in which every line feed is followed by a blank, as in the
    body of the block written for a list of tags. *)
Fixpoint lf_then_blank (s : string) : bool :=
  match s with
  | "" => true
  | String c s' =>
      (if Ascii.eqb c "010" then
         match s' with
         | String d _ => Ascii.eqb d " "
         | "" => false
         end
       else true)
      && lf_then_blank s'
  end.

(** * Properties *)

(** ** Lists of tags *)

Section TagLists.
Implicit Types (l old ex new : list string) (t : string).

Lemma includes_true l t : JS.includes l t = true ↔ t ∈ l.
Proof.
  unfold JS.includes. rewrite existsb_exists. split.
  - intros (x & Hin & Heq). apply String.eqb_eq in Heq. subst.
    by apply list_elem_of_In.
  - intros Hin. exists t. split; [by apply list_elem_of_In |].
    apply String.eqb_refl.
Qed.

Lemma includes_false l t : JS.includes l t = false ↔ t ∉ l.
Proof.
  rewrite <- includes_true. destruct (JS.includes l t); split; congruence.
Qed.

Lemma elem_of_without old l t : t ∈ without old l ↔ t ∈ l ∧ t ∉ old.
Proof.
  unfold without. split.
  - intros H. apply list_elem_of_In, filter_In in H as [H1 H2].
    apply negb_true_iff, includes_false in H2.
    split; [by apply list_elem_of_In | done].
  - intros [H1 H2]. apply list_elem_of_In, filter_In.
    split; [by apply list_elem_of_In |].
    by apply negb_true_iff, includes_false.
Qed.

Lemma without_nil l : without [] l = l.
Proof.
  unfold without. induction l as [|x l IH]; simpl; [done |].
  f_equal. exact IH.
Qed.

Lemma without_sublist old l : without old l `sublist_of` l.
Proof.
  unfold without. induction l as [|x l IH]; simpl; [constructor |].
  destruct (negb _); by constructor.
Qed.

(** The appended tags: each new tag that was missing, once, in the
    order of the derived tags. *)
Lemma add_folder_tags_shape ex new :
  ∃ added,
    add_folder_tags ex new = ex ++ added
    ∧ NoDup added
    ∧ added `sublist_of` new
    ∧ ∀ t, t ∈ added ↔ t ∈ new ∧ t ∉ ex.
Proof.
  unfold add_folder_tags. revert ex.
  induction new as [|a new IH]; intros ex; simpl.
  - exists []. rewrite app_nil_r.
    split; [done |]. split; [constructor |]. split; [constructor |].
    intros t. split.
    + intros Ht. inversion Ht.
    + intros [Ht _]. inversion Ht.
  - unfold push_absent at 2. destruct (JS.includes ex a) eqn:Hin.
    + apply includes_true in Hin.
      destruct (IH ex) as (added & -> & Hnd & Hsub & Hmem).
      exists added.
      split; [done |]. split; [done |]. split; [by constructor |].
      intros t. rewrite Hmem, elem_of_cons. split.
      * intros [Ht Hex]. auto.
      * intros [[->|Ht] Hex]; [contradiction | auto].
    + apply includes_false in Hin.
      destruct (IH (ex ++ [a])) as (added & -> & Hnd & Hsub & Hmem).
      exists (a :: added). rewrite <- app_assoc. simpl.
      split; [done |]. split; [| split; [by constructor |]].
      * constructor; [|done]. intros Ha. apply Hmem in Ha as [_ Ha].
        apply Ha, elem_of_app. right. by left.
      * intros t. rewrite !elem_of_cons, Hmem, elem_of_app.
        rewrite list_elem_of_singleton. split.
        -- intros [->|[Ht Hex]]; [auto |]. split; [auto |].
           intros Hex'. apply Hex. by left.
        -- intros [[->|Ht] Hex]; [by left |].
           destruct (decide (t = a)) as [->|Hne]; [by left | right].
           split; [done |]. intros [Hex'|Heq]; contradiction.
Qed.

Lemma occurrences_app t l1 l2 :
  occurrences t (l1 ++ l2) = occurrences t l1 + occurrences t l2.
Proof. unfold occurrences. by rewrite List.filter_app, length_app. Qed.

Lemma occurrences_0 t l : t ∉ l → occurrences t l = 0.
Proof.
  unfold occurrences. induction l as [|x l IH]; intros Hn; simpl; [done |].
  destruct (String.eqb t x) eqn:E.
  - apply String.eqb_eq in E. subst. exfalso. apply Hn. by left.
  - apply IH. intros H. apply Hn. by right.
Qed.

Lemma occurrences_pos t l : t ∈ l → (1 ≤ occurrences t l)%nat.
Proof.
  unfold occurrences. induction l as [|x l IH]; intros Hin; simpl.
  - inversion Hin.
  - destruct (String.eqb t x) eqn:E; simpl; [lia |].
    apply IH. apply elem_of_cons in Hin as [->|]; [|done].
    by rewrite String.eqb_refl in E.
Qed.

Lemma occurrences_NoDup t l : NoDup l → t ∈ l → occurrences t l = 1.
Proof.
  induction 1 as [|x l Hx Hnd IH]; intros Hin; [inversion Hin |].
  change (x :: l) with ([x] ++ l). rewrite occurrences_app.
  apply elem_of_cons in Hin as [->|Hin].
  - rewrite (occurrences_0 x l Hx). unfold occurrences. simpl.
    by rewrite String.eqb_refl.
  - rewrite IH by done. unfold occurrences. simpl.
    destruct (String.eqb t x) eqn:E; [|done].
    apply String.eqb_eq in E. by subst.
Qed.

End TagLists.

(** ** The host *)

Section Host.
Implicit Types (v : list (string * document)) (p q : string) (d : document).

Lemma vault_get_set p d d0 v :
  vault_get p v = Some d0 → vault_get p (vault_set p d v) = Some d.
Proof.
  induction v as [|[q d'] v IH]; simpl; [done |].
  destruct (String.eqb p q) eqn:E; simpl; rewrite E; [done | exact IH].
Qed.

Lemma vault_get_set_ne p q d v :
  p ≠ q → vault_get q (vault_set p d v) = vault_get q v.
Proof.
  intros Hne. induction v as [|[r d'] v IH]; simpl; [done |].
  destruct (String.eqb p r) eqn:E; simpl.
  - apply String.eqb_eq in E. subst r.
    destruct (String.eqb q p) eqn:E'; [|done].
    apply String.eqb_eq in E'. congruence.
  - destruct (String.eqb q r); [done | exact IH].
Qed.

Lemma vault_set_paths p d v : map fst (vault_set p d v) = map fst v.
Proof.
  induction v as [|[q d'] v IH]; simpl; [done |].
  destruct (String.eqb p q); simpl; [done | by rewrite IH].
Qed.

End Host.

(** ** The current revision *)

Section FrontmatterFacts.
Variable normalizePath : string -> string.
Variable settings : FolderTagPluginSettings.

Local Abbreviation getFolderTags := (Frontmatter.getFolderTags normalizePath settings).
Local Abbreviation getFolderTagsFromPath :=
  (Frontmatter.getFolderTagsFromPath normalizePath settings).
Local Abbreviation applyFolderTag := (Frontmatter.applyFolderTag normalizePath settings).
Local Abbreviation removeFolderTags :=
  (Frontmatter.removeFolderTags normalizePath settings).
Local Abbreviation apply_mutator := (Frontmatter.apply_mutator normalizePath settings).
Local Abbreviation existing_tags := Frontmatter.existing_tags.

Lemma length_eqb_nil {A} (l : list A) :
  (length l =? 0)%nat = false ↔ l ≠ [].
Proof. destruct l; simpl; split; congruence. Qed.

(** With derived tags and a block the host can parse, [applyFolderTag]
    completes and stores what its mutator leaves. *)
Lemma applyFolderTag_parsed file action oldPath w d yaml :
  vault_get (path file) (vault w) = Some d →
  fm d = Parsed yaml →
  getFolderTags file ≠ [] →
  applyFolderTag file action oldPath w =
    (Done tt,
     {| vault :=
          vault_set (path file)
            {| fm := Parsed (apply_mutator (getFolderTags file) action
                               oldPath yaml);
               body := body d |} (vault w);
        notices := notices w; console := console w |}).
Proof.
  intros Hget Hfm Hne. unfold Frontmatter.applyFolderTag.
  apply length_eqb_nil in Hne. rewrite Hne.
  unfold processFrontMatter. by rewrite Hget, Hfm.
Qed.

Lemma removeFolderTags_parsed file w d yaml :
  vault_get (path file) (vault w) = Some d →
  fm d = Parsed yaml →
  getFolderTags file ≠ [] →
  removeFolderTags file w =
    (Done tt,
     {| vault :=
          vault_set (path file)
            {| fm := Parsed (Frontmatter.remove_mutator (getFolderTags file)
                               yaml);
               body := body d |} (vault w);
        notices := notices w; console := console w |}).
Proof.
  intros Hget Hfm Hne. unfold Frontmatter.removeFolderTags.
  apply length_eqb_nil in Hne. rewrite Hne.
  unfold processFrontMatter. by rewrite Hget, Hfm.
Qed.

(** At the vault root nothing is derived and nothing is done. *)
Lemma applyFolderTag_no_tags file action oldPath w :
  getFolderTags file = [] → applyFolderTag file action oldPath w = (Done tt, w).
Proof. intros H. unfold Frontmatter.applyFolderTag. by rewrite H. Qed.

Lemma tag_field_stored p d0 yaml b v ns cs :
  vault_get p v = Some d0 →
  tag_field p {| vault := vault_set p {| fm := Parsed yaml; body := b |} v;
                 notices := ns; console := cs |} = yaml !! "tags".
Proof.
  intros Hget. unfold tag_field. simpl.
  by rewrite (vault_get_set p _ d0 v Hget).
Qed.

(** The list the mutator of [applyFolderTag] stores. *)
Lemma apply_mutator_tags folderTags action oldPath yaml :
  apply_mutator folderTags action oldPath yaml !! "tags" =
    Some (YSeq (map YStr
      (add_folder_tags
         (without (stale_set normalizePath settings action oldPath)
            (existing_tags yaml))
         folderTags))).
Proof.
  unfold Frontmatter.apply_mutator, stale_set.
  rewrite lookup_insert_eq.
  destruct (is_move_or_rerun action && path_supplied oldPath);
    [done | by rewrite without_nil].
Qed.

Lemma apply_mutator_other folderTags action oldPath yaml k :
  k ≠ "tags" →
  apply_mutator folderTags action oldPath yaml !! k = yaml !! k.
Proof.
  intros Hk. unfold Frontmatter.apply_mutator. by rewrite lookup_insert_ne.
Qed.

Lemma remove_mutator_other folderTags yaml k :
  k ≠ "tags" →
  Frontmatter.remove_mutator folderTags yaml !! k = yaml !! k.
Proof.
  intros Hk. unfold Frontmatter.remove_mutator.
  destruct (_ =? _)%nat; [by rewrite lookup_delete_ne | by rewrite lookup_insert_ne].
Qed.

End FrontmatterFacts.

(** ** Trimming *)

Section Trim.
Implicit Types (s t : string) (c : ascii).

Lemma append_nil_l s : "" +:+ s = s.
Proof. reflexivity. Qed.

Lemma append_cons c s t : String c s +:+ t = String c (s +:+ t).
Proof. reflexivity. Qed.

Lemma trimStart_head s c t :
  JS.trimStart s = String c t → JS.is_white_space c = false.
Proof.
  induction s as [|a s IH]; simpl; [done |].
  destruct (JS.is_white_space a) eqn:E; [exact IH |].
  intros [= -> ->]. exact E.
Qed.

Lemma trimEnd_head c s :
  JS.is_white_space c = false → ∃ t, JS.trimEnd (String c s) = String c t.
Proof.
  intros E. simpl. destruct (JS.trimEnd s); rewrite ?E; eauto.
Qed.

Lemma trimEnd_last s t c :
  JS.trimEnd s = t +:+ String c "" → JS.is_white_space c = false.
Proof.
  revert t. induction s as [|a s IH]; intros t; simpl.
  - destruct t; discriminate.
  - destruct (JS.trimEnd s) as [|b u] eqn:Eu.
    + destruct (JS.is_white_space a) eqn:E.
      * destruct t; discriminate.
      * destruct t as [|x t]; [by intros [= ->] |].
        rewrite append_cons. intros [= _ H]. destruct t; discriminate.
    + destruct t as [|x t]; [discriminate |].
      rewrite append_cons. intros [= _ H]. by apply (IH t).
Qed.

Lemma trim_trimmed s : trimmed (JS.trim s).
Proof.
  unfold trimmed, JS.trim. split.
  - intros c s' H. destruct (JS.trimStart s) as [|a u] eqn:Eu; [discriminate |].
    pose proof (trimStart_head _ _ _ Eu) as Ha.
    destruct (trimEnd_head a u Ha) as [t Ht]. rewrite Ht in H.
    by injection H as <- _.
  - intros s' c H. by apply (trimEnd_last _ _ _ H).
Qed.

Lemma trimEnd_fixed s :
  (∀ s' c, s = s' +:+ String c "" → JS.is_white_space c = false) →
  JS.trimEnd s = s.
Proof.
  induction s as [|a s IH]; intros H; simpl; [done |].
  rewrite IH.
  - destruct s; [|done]. by rewrite (H "" a eq_refl).
  - intros s' c ->. apply (H (String a s') c). by rewrite append_cons.
Qed.

Lemma trim_fixed s : trimmed s → JS.trim s = s.
Proof.
  intros [Hh Hl]. unfold JS.trim.
  assert (JS.trimStart s = s) as ->.
  { destruct s as [|a s]; simpl; [done |]. by rewrite (Hh a s eq_refl). }
  by apply trimEnd_fixed.
Qed.

(** [trim] is idempotent. *)
Lemma trim_trim s : JS.trim (JS.trim s) = JS.trim s.
Proof. apply trim_fixed, trim_trimmed. Qed.

End Trim.

(** ** Derivation *)

(** C8: in the split-pair depth mode a path with at least two folder
    segments gives exactly two tags, the one of the last folder first and
    the one of its parent second, each between prefix and suffix; a path
    with one folder segment gives what the single mode gives, one tag from
    that segment. *)
Theorem splitPair_tags normalizePath st p :
  folderDepth st = Depth2split →
  let parts := JS.slice_0_m1 (JS.split "/" (normalizePath p)) in
  (∀ rest parent last,
     parts = rest ++ [parent; last] →
     Frontmatter.getFolderTagsFromPath normalizePath st p =
       [tagPrefix st +:+ last +:+ tagSuffix st;
        tagPrefix st +:+ parent +:+ tagSuffix st])
  ∧ (∀ last,
       parts = [last] →
       Frontmatter.getFolderTagsFromPath normalizePath st p =
         [tagPrefix st +:+ last +:+ tagSuffix st]
       ∧ Frontmatter.getFolderTagsFromPath normalizePath st p =
           Frontmatter.getFolderTagsFromPath normalizePath
             (with_depth Depth1 st) p).
Proof.
  intros Hd parts. unfold Frontmatter.getFolderTagsFromPath. fold parts.
  split.
  - intros rest parent last ->. unfold tags_of_parts. rewrite Hd.
    rewrite length_app. simpl length.
    replace (length rest + 2 =? 0)%nat with false
      by (symmetry; apply Nat.eqb_neq; lia).
    replace (2 <=? length rest + 2)%nat with true
      by (symmetry; apply Nat.leb_le; lia).
    unfold JS.at_.
    replace (length rest + 2 - 1) with (length rest + 1) by lia.
    replace (length rest + 2 - 2) with (length rest + 0) by lia.
    by rewrite !lookup_app_r, !Nat.add_sub' by lia.
  - intros last ->. unfold tags_of_parts. rewrite Hd. by simpl.
Qed.

(** The four depth modes on the folders [a/b/c], as the specification
    lists them. *)
Example depth_modes :
  let st d := {| folderDepth := d; tagPrefix := "#"; tagSuffix := "!";
                 overrideExisting := false |} in
  tags_of_parts (st Depth1) ["a"; "b"; "c"] = ["#c!"]
  ∧ tags_of_parts (st Depth2split) ["a"; "b"; "c"] = ["#c!"; "#b!"]
  ∧ tags_of_parts (st Depth2single) ["a"; "b"; "c"] = ["#b/c!"]
  ∧ tags_of_parts (st DepthFull) ["a"; "b"; "c"] = ["#a/b/c!"]
  ∧ tags_of_parts (st Depth2single) ["c"] = ["#c!"]
  ∧ ∀ d, tags_of_parts (st d) [] = [].
Proof. repeat split; reflexivity. Qed.

Lemma splitPair_tags_witness :
  let st := {| folderDepth := Depth2split; tagPrefix := "#";
               tagSuffix := "!"; overrideExisting := false |} in
  Frontmatter.getFolderTagsFromPath id st "a/b/c/n.md" = ["#c!"; "#b!"]
  ∧ Frontmatter.getFolderTagsFromPath id st "c/n.md" = ["#c!"].
Proof.
  intros st. split.
  - apply (proj1 (splitPair_tags id st "a/b/c/n.md" eq_refl) ["a"] "b" "c").
    reflexivity.
  - apply (proj2 (splitPair_tags id st "c/n.md" eq_refl) "c"). reflexivity.
Defined.

(** ** Reconciliation in the current revision *)

Section Reconcile.
Variable normalizePath : string -> string.
Variable settings : FolderTagPluginSettings.

Local Abbreviation getFolderTags :=
  (Frontmatter.getFolderTags normalizePath settings).
Local Abbreviation getFolderTagsFromPath :=
  (Frontmatter.getFolderTagsFromPath normalizePath settings).
Local Abbreviation applyFolderTag :=
  (Frontmatter.applyFolderTag normalizePath settings).
Local Abbreviation removeFolderTags :=
  (Frontmatter.removeFolderTags normalizePath settings).
Local Abbreviation stale := (stale_set normalizePath settings).

(** What [applyFolderTag] leaves under [tags]: the surviving tags in
    their order, then the derived tags that were missing. *)
Lemma applyFolderTag_tag_field file action oldPath w d yaml :
  vault_get (path file) (vault w) = Some d →
  fm d = Parsed yaml →
  getFolderTags file ≠ [] →
  ∃ w' added,
    applyFolderTag file action oldPath w = (Done tt, w')
    ∧ tag_field (path file) w' =
        Some (YSeq (map YStr
          (without (stale action oldPath) (Frontmatter.existing_tags yaml)
             ++ added)))
    ∧ NoDup added
    ∧ added `sublist_of` getFolderTags file
    ∧ ∀ t, t ∈ added ↔
           t ∈ getFolderTags file
           ∧ t ∉ without (stale action oldPath)
                   (Frontmatter.existing_tags yaml).
Proof.
  intros Hget Hfm Hne.
  destruct (add_folder_tags_shape
              (without (stale action oldPath) (Frontmatter.existing_tags yaml))
              (getFolderTags file)) as (added & Heq & Hnd & Hsub & Hmem).
  eexists _, added. split; [by eapply applyFolderTag_parsed |].
  split; [| done].
  rewrite (tag_field_stored _ d) by done.
  by rewrite apply_mutator_tags, Heq.
Qed.




End Reconcile.

(** *** Worked cases *)




(** The case the specification gives for a move: [work] goes, [urgent]
    stays, [personal] is appended. *)
Example move_work_to_personal :
  tag_field "personal/n.md"
    (snd (Frontmatter.on_rename id DEFAULT_SETTINGS
            {| path := "personal/n.md" |} "work/n.md"
            (quiet [("personal/n.md",
                     tagged (YSeq [YStr "work"; YStr "urgent"]) "text")]))) =
    Some (YSeq [YStr "urgent"; YStr "personal"]).
Proof. vm_compute. reflexivity. Qed.



(** An entry stored with blanks around it comes back without them, a
    number comes back as its digits. *)
Example trimmed_on_rewrite :
  let w :=
    quiet [("work/n.md", tagged (YSeq [YStr " urgent "; YInt 2024]) "text")] in
  tag_field "work/n.md"
    (snd (Frontmatter.on_create id DEFAULT_SETTINGS {| path := "work/n.md" |} w))
  = Some (YSeq [YStr "urgent"; YStr "2024"; YStr "work"])
  ∧ tag_field "work/n.md"
      (snd (Frontmatter.removeFolderTags id DEFAULT_SETTINGS
              {| path := "work/n.md" |}
              (quiet [("work/n.md", tagged (YStr " urgent , work") "text")])))
    = Some (YSeq [YStr "urgent"]).
Proof. vm_compute. split; reflexivity. Qed.

(** ** The bulk passes of the current revision *)

Section Passes.
Variable normalizePath : string -> string.
Variable settings : FolderTagPluginSettings.

Lemma bind_done {A B} (m : M A) (k : A → M B) w a w' :
  m w = (Done a, w') → (m ≫= k) w = k a w'.
Proof. intros H. unfold mbind, M_bind. by rewrite H. Qed.

Lemma bind_thrown {A B} (m : M A) (k : A → M B) w e w' :
  m w = (Thrown e, w') → (m ≫= k) w = (Thrown e, w').
Proof. intros H. unfold mbind, M_bind. by rewrite H. Qed.

(** A loop whose body always completes visits every item and completes. *)
Lemma for_of_completes {A} (xs : list A) (f : A → M unit) :
  (∀ x w, ∃ w', f x w = (Done tt, w')) →
  ∀ w, ∃ w', for_of xs f w = (Done tt, w').
Proof.
  intros Hf. induction xs as [|x xs IH]; intros w; simpl.
  - by exists w.
  - destruct (Hf x w) as [w1 H1]. destruct (IH w1) as [w2 H2].
    exists w2. by rewrite (bind_done _ _ _ _ _ H1).
Qed.

(** The guarded body of the reapply loop completes on every note. *)
Lemma guarded_apply_completes file w :
  ∃ w',
    try_catch
      (Frontmatter.applyFolderTag normalizePath settings file Rerun None)
      (fun e =>
         console_error ("Failed for file: " +:+ path file +:+ " " +:+ e) ;;
         Notice ("Failed to process: " +:+ path file)) w = (Done tt, w').
Proof.
  unfold try_catch.
  destruct (Frontmatter.applyFolderTag _ _ _ _ _ w) as [[[]|e] w1] eqn:E.
  - by exists w1.
  - eexists. reflexivity.
Qed.

(** X2: the reapply pass goes through the whole list whatever fails on
    the way, and ends on its closing notice. *)
Lemma reapply_never_aborts w :
  ∃ w',
    Frontmatter.reapply_onClick normalizePath settings w = (Done tt, w')
    ∧ last (notices w') = Some "Folder tags updated for all notes!".
Proof.
  unfold Frontmatter.reapply_onClick.
  erewrite bind_done by reflexivity.
  erewrite bind_done by reflexivity.
  match goal with
  | |- context [for_of ?xs ?f] =>
      destruct (for_of_completes xs f guarded_apply_completes
                  {| vault := vault w;
                     notices := notices w ++ ["Updating all notes..."];
                     console := console w |}) as [w1 H1]
  end.
  erewrite bind_done by exact H1.
  eexists. split; [reflexivity |]. simpl. by rewrite last_snoc.
Qed.

(** A rerun is called without an old path, so it removes no tag: the
    tags that were there all stay, in their order. *)
Lemma rerun_keeps_every_tag file w d yaml :
  vault_get (path file) (vault w) = Some d →
  fm d = Parsed yaml →
  Frontmatter.getFolderTags normalizePath settings file ≠ [] →
  ∃ w' added,
    Frontmatter.applyFolderTag normalizePath settings file Rerun None w
      = (Done tt, w')
    ∧ tag_field (path file) w' =
        Some (YSeq (map YStr (Frontmatter.existing_tags yaml ++ added))).
Proof.
  intros Hget Hfm Hne.
  destruct (applyFolderTag_tag_field normalizePath settings file Rerun None
              w d yaml Hget Hfm Hne) as (w' & added & Hrun & Hfield & _).
  exists w', added. split; [done |].
  by rewrite Hfield; unfold stale_set; simpl; rewrite without_nil.
Qed.

End Passes.

(** C3 (the code on the input where it departs from the claim): the
    bulk reapply strips nothing. With the prefix changed from empty to
    [f-], the tag [work] of the earlier settings stays and [f-work] is
    appended; with the settings unchanged the derived tag [work] keeps its
    place in front of [urgent] instead of being stripped and appended. *)
Theorem reapply_strips_nothing :
  let v :=
    [("work/n.md", tagged (YSeq [YStr "work"; YStr "urgent"]) "text")] in
  let st := {| folderDepth := Depth1; tagPrefix := "f-"; tagSuffix := "";
               overrideExisting := false |} in
  tag_field "work/n.md" (snd (Frontmatter.reapply_onClick id st (quiet v)))
    = Some (YSeq [YStr "work"; YStr "urgent"; YStr "f-work"])
  ∧ tag_field "work/n.md"
      (snd (Frontmatter.reapply_onClick id DEFAULT_SETTINGS (quiet v)))
    = Some (YSeq [YStr "work"; YStr "urgent"]).
Proof. vm_compute. split; reflexivity. Qed.

(** C7 (the code on the input where it departs from the claim): the
    bulk removal stops at the first note whose processing throws. With a
    note whose block cannot be parsed listed first, the pass rejects, the
    second note keeps its folder tag and no closing notice is shown; the
    bulk reapply over the same notes reports the failure and goes on. *)
Theorem remove_pass_aborts :
  let v :=
    [("a/bad.md", {| fm := Malformed "tags: ["; body := "" |});
     ("b/n.md", tagged (YSeq [YStr "b"; YStr "x"]) "text")] in
  let removed := Frontmatter.remove_onClick id DEFAULT_SETTINGS (quiet v) in
  let reapplied :=
    Frontmatter.reapply_onClick id DEFAULT_SETTINGS
      (quiet [("a/bad.md", {| fm := Malformed "tags: ["; body := "" |});
              ("b/n.md", tagged (YSeq [YStr "x"]) "text")]) in
  fst removed = Thrown "cannot parse the metadata block"
  ∧ tag_field "b/n.md" (snd removed) = Some (YSeq [YStr "b"; YStr "x"])
  ∧ notices (snd removed) = ["Removing folder tags from all notes..."]
  ∧ fst reapplied = Done tt
  ∧ tag_field "b/n.md" (snd reapplied) = Some (YSeq [YStr "x"; YStr "b"])
  ∧ notices (snd reapplied) =
      ["Updating all notes..."; "Failed to process: a/bad.md";
       "Folder tags updated for all notes!"].
Proof. vm_compute. repeat split; reflexivity. Qed.

(** ** Repeated application *)

(** C6 (the code on the input where it departs from the claim): with a
    prefix that opens with a blank, the derived tag is stored untrimmed
    and read back trimmed, so each further [applyFolderTag] with the same
    derived tag appends it again. *)
Theorem apply_twice_differs :
  let st := {| folderDepth := Depth1; tagPrefix := " f-"; tagSuffix := "";
               overrideExisting := false |} in
  let file := {| path := "work/n.md" |} in
  let apply w := snd (Frontmatter.applyFolderTag id st file Create None w) in
  let w0 := quiet [("work/n.md", tagged (YSeq [YStr "urgent"]) "text")] in
  Frontmatter.getFolderTags id st file = [" f-work"]
  ∧ tag_field "work/n.md" (apply w0)
    = Some (YSeq [YStr "urgent"; YStr " f-work"])
  ∧ tag_field "work/n.md" (apply (apply w0))
    = Some (YSeq [YStr "urgent"; YStr "f-work"; YStr " f-work"])
  ∧ tag_field "work/n.md" (apply (apply (apply w0)))
    = Some (YSeq [YStr "urgent"; YStr "f-work"; YStr "f-work"; YStr " f-work"]).
Proof. vm_compute. repeat split; reflexivity. Qed.

(** ** The earlier revision *)

Section RawTextFacts.
Variable jsyaml_load : string -> RawText.load_result.
Variable jsyaml_dump : yaml_value -> string.
Variable settings : FolderTagPluginSettings.

Local Abbreviation r_apply :=
  (RawText.applyFolderTag jsyaml_load jsyaml_dump settings).
Local Abbreviation r_remove :=
  (RawText.removeFolderTags jsyaml_load jsyaml_dump settings).
Local Abbreviation r_tags := (RawText.getFolderTags settings).

(** A replacement text without [$] is inserted as it is. *)
Lemma expand_plain matched before after group repl :
  RawText.has_char "$" repl = false →
  RawText.expand matched before after group repl = repl.
Proof.
  induction repl as [|c r IH]; simpl; [done |].
  intros H. apply orb_false_iff in H as [Hc Hr].
  rewrite Hc. simpl. by rewrite IH.
Qed.

Lemma replace_inline_plain content before group after newLine :
  RawText.has_char "$" newLine = false →
  RawText.replace_inline content before group after newLine =
    before +:+ newLine +:+ after.
Proof.
  intros H. unfold RawText.replace_inline. by rewrite expand_plain.
Qed.

(** With the gate open and a block opening the text, the block is the
    tag field: it is rewritten and the text after it is kept from its first
    character that is not white space. *)
Lemma r_apply_block file action oldPath content yamlStr rest :
  r_tags file ≠ [] →
  RawText.gate settings action = true →
  RawText.match_yaml content = Some (yamlStr, rest) →
  r_apply file action oldPath content =
    match RawText.set_tags (RawText.load_or_empty jsyaml_load yamlStr)
            (RawText.block_tags (r_tags file) action oldPath
               (RawText.load_or_empty jsyaml_load yamlStr)) with
    | Some yamlObj' =>
        RawText.Modify
          (RawText.with_block jsyaml_dump yamlObj' (JS.trimStart rest))
    | None => RawText.Rejects
    end.
Proof.
  intros Hne Hgate Hm. unfold RawText.applyFolderTag.
  apply length_eqb_nil in Hne. by rewrite Hne, Hgate, Hm.
Qed.

(** With the gate open, no block and an inline line, the line is
    rewritten where it stands. *)
Lemma r_apply_inline file action oldPath content before group after :
  r_tags file ≠ [] →
  RawText.gate settings action = true →
  RawText.match_yaml content = None →
  RawText.match_inline content = Some (before, group, after) →
  r_apply file action oldPath content =
    RawText.Modify
      (RawText.replace_inline content before group after
         ("tags:: " +:+
          JS.join ", "
            (RawText.inline_tags (r_tags file) action oldPath group))).
Proof.
  intros Hne Hgate Hy Hi. unfold RawText.applyFolderTag.
  apply length_eqb_nil in Hne. by rewrite Hne, Hgate, Hy, Hi.
Qed.

(** With the gate shut, or with neither a block nor an inline line, a new
    block is put in front of the text. *)
Lemma r_apply_new_block file action oldPath content :
  r_tags file ≠ [] →
  RawText.gate settings action = false
  ∨ (RawText.match_yaml content = None ∧ RawText.match_inline content = None) →
  r_apply file action oldPath content =
    RawText.Modify
      (RawText.new_block (r_tags file) +:+ JS.trimStart content).
Proof.
  intros Hne H. unfold RawText.applyFolderTag.
  apply length_eqb_nil in Hne. rewrite Hne.
  destruct H as [->|[-> ->]]; [done |].
  by destruct (RawText.gate settings action).
Qed.

Lemma r_remove_block file content yamlStr rest :
  r_tags file ≠ [] →
  RawText.match_yaml content = Some (yamlStr, rest) →
  ∃ yamlObj',
    r_remove file content =
      RawText.Modify
        (RawText.with_block jsyaml_dump yamlObj' (JS.trimStart rest))
    ∧ ∀ m, RawText.load_or_empty jsyaml_load yamlStr = YMap m →
        yamlObj' = YMap m
        ∨ ∃ l, m !! "tags" = Some (YSeq l)
               ∧ yamlObj' =
                   YMap (<["tags" :=
                             YSeq (List.filter
                                     (fun t => negb (RawText.str_includes
                                                       (r_tags file) t)) l)]>
                           m).
Proof.
  intros Hne Hm. unfold RawText.removeFolderTags.
  apply length_eqb_nil in Hne. rewrite Hne, Hm.
  eexists. split; [reflexivity |].
  intros m ->. simpl.
  destruct (m !! "tags") as [[ | | | |l| ]|] eqn:E; eauto.
Qed.

Lemma r_remove_inline file content before group after :
  r_tags file ≠ [] →
  RawText.match_yaml content = None →
  RawText.match_inline content = Some (before, group, after) →
  r_remove file content =
    RawText.Modify
      (RawText.replace_inline content before group after
         ("tags:: " +:+
          JS.join ", "
            (List.filter (fun t => negb (JS.includes (r_tags file) t))
               (map JS.trim (JS.split "," group))))).
Proof.
  intros Hne Hy Hi. unfold RawText.removeFolderTags.
  apply length_eqb_nil in Hne. by rewrite Hne, Hy, Hi.
Qed.

End RawTextFacts.

(** On a move the earlier revision drops the entries equal to the name
    of the old folder, not the tags derived from the old path: under a
    prefix the old derived tag stays. *)
Example raw_move_keeps_prefixed_tag :
  let st := {| folderDepth := Depth1; tagPrefix := "f-"; tagSuffix := "";
               overrideExisting := false |} in
  RawText.applyFolderTag (fun _ => RawText.LoadThrows) (fun _ => "") st
    {| path := "personal/n.md" |} Move (Some "work/n.md")
    "tags:: f-work, work, urgent"
  = RawText.Modify "tags:: f-work, urgent, f-personal".
Proof. vm_compute. reflexivity. Qed.

(** ** Removal down to nothing *)




(** ** The representation written back *)




(** ** A block and an inline line in one note *)




(** ** When a second application changes nothing *)

Section Idempotence.
Variable normalizePath : string -> string.
Variable settings : FolderTagPluginSettings.

Lemma existing_tags_trimmed yaml t :
  t ∈ Frontmatter.existing_tags yaml → trimmed t.
Proof.
  unfold Frontmatter.existing_tags.
  destruct (yaml !! "tags") as [[ | | | |l| ]|]; intros Ht;
    try (by inversion Ht);
    apply list_elem_of_fmap in Ht as (e & -> & _); apply trim_trimmed.
Qed.

Lemma map_trim_fixed (l : list string) :
  (∀ t, t ∈ l → trimmed t) → map JS.trim l = l.
Proof.
  induction l as [|x l IH]; intros H; simpl; [done |].
  rewrite trim_fixed by (apply H; by left).
  rewrite IH; [done |]. intros t Ht. apply H. by right.
Qed.

Lemma add_folder_tags_present (ex new : list string) :
  (∀ t, t ∈ new → t ∈ ex) → add_folder_tags ex new = ex.
Proof.
  intros H. destruct (add_folder_tags_shape ex new)
    as (added & -> & _ & _ & Hmem).
  destruct added as [|a added]; [by rewrite app_nil_r |].
  assert (a ∈ a :: added) as Ha by by left.
  apply Hmem in Ha as [Hn He]. by apply H in Hn.
Qed.


End Idempotence.


(** * Further properties of the code *)

(** ** Strings split at a separator *)

Section Splitting.
Implicit Types (s t : string) (c sep : ascii).

Lemma append_assoc s t u : (s +:+ t) +:+ u = s +:+ (t +:+ u).
Proof.
  induction s as [|c s IH]; [done |]. by rewrite !append_cons, IH.
Qed.

Lemma append_nil_r s : s +:+ "" = s.
Proof. induction s as [|c s IH]; [done |]. by rewrite append_cons, IH. Qed.

Lemma has_char_app c s t :
  RawText.has_char c (s +:+ t) = RawText.has_char c s || RawText.has_char c t.
Proof.
  induction s as [|a s IH]; [done |].
  rewrite append_cons. simpl. by rewrite IH, orb_assoc.
Qed.

Lemma split_cons sep s : ∃ w ws, JS.split sep s = w :: ws.
Proof.
  induction s as [|c s (w & ws & IH)]; simpl; [eauto |].
  destruct (Ascii.eqb c sep); [eauto |]. rewrite IH. eauto.
Qed.

(** Without the separator there is one piece, the string itself. *)
Lemma split_plain sep s :
  RawText.has_char sep s = false → JS.split sep s = [s].
Proof.
  induction s as [|c s IH]; simpl; [done |].
  intros H. apply orb_false_iff in H as [Hc Hs].
  rewrite Hc, IH by done. done.
Qed.

(** With the separator there are at least two pieces. *)
Lemma split_two sep s :
  RawText.has_char sep s = true → (2 ≤ length (JS.split sep s))%nat.
Proof.
  induction s as [|c s IH]; simpl; [done |].
  destruct (Ascii.eqb c sep) eqn:E; simpl.
  - intros _. destruct (split_cons sep s) as (w & ws & ->). simpl. lia.
  - intros H. specialize (IH H).
    destruct (JS.split sep s) as [|w ws]; simpl in *; lia.
Qed.

(** The pieces of [dir/name], for a [name] without the separator. *)
Lemma split_snoc sep dir name :
  RawText.has_char sep name = false →
  JS.split sep (dir +:+ String sep name) = JS.split sep dir ++ [name].
Proof.
  intros Hn. induction dir as [|c dir IH].
  - rewrite append_nil_l. simpl. rewrite Ascii.eqb_refl.
    by rewrite split_plain.
  - rewrite append_cons. simpl. destruct (Ascii.eqb c sep); rewrite IH.
    + done.
    + by destruct (split_cons sep dir) as (w & ws & ->).
Qed.

(** Joining the pieces with the separator gives the string back. *)
Lemma join_split sep s : JS.join (String sep "") (JS.split sep s) = s.
Proof.
  induction s as [|c s IH]; simpl; [done |].
  destruct (split_cons sep s) as (w & ws & Hs). rewrite Hs in *.
  destruct (Ascii.eqb c sep) eqn:E.
  - apply Ascii.eqb_eq in E. subst c.
    change (JS.join (String sep "") ("" :: w :: ws))
      with ("" +:+ (String sep "" +:+ JS.join (String sep "") (w :: ws))).
    by rewrite IH.
  - destruct ws as [|w' ws]; simpl in *; [by rewrite IH |].
    by rewrite append_cons, IH.
Qed.

Lemma slice_snoc {A} (l : list A) x : JS.slice_0_m1 (l ++ [x]) = l.
Proof.
  unfold JS.slice_0_m1. rewrite length_app. simpl.
  replace (length l + 1 - 1) with (length l) by lia.
  apply take_app_length.
Qed.

End Splitting.

(** ** The tags derived from a path *)

Section Derivation.
Variable normalizePath : string -> string.
Variable settings : FolderTagPluginSettings.

Local Abbreviation derive :=
  (Frontmatter.getFolderTagsFromPath normalizePath settings).

Lemma tags_of_parts_nil parts :
  tags_of_parts settings parts = [] ↔ parts = [].
Proof.
  unfold tags_of_parts. destruct parts as [|x parts]; [done |].
  simpl. split; [| done].
  destruct (folderDepth settings); try done;
    destruct parts; simpl; done.
Qed.

Lemma parts_nil s :
  JS.slice_0_m1 (JS.split "/" s) = [] ↔ RawText.has_char "/" s = false.
Proof.
  unfold JS.slice_0_m1. split.
  - intros H. destruct (RawText.has_char "/" s) eqn:E; [| done].
    apply split_two in E.
    destruct (JS.split "/" s) as [|a [|b l]]; simpl in *; try lia.
    discriminate.
  - intros H. by rewrite split_plain.
Qed.

(** A path without a folder derives nothing, and only such a path. *)
Lemma derive_nil p :
  derive p = [] ↔ RawText.has_char "/" (normalizePath p) = false.
Proof.
  unfold Frontmatter.getFolderTagsFromPath.
  by rewrite tags_of_parts_nil, parts_nil.
Qed.

(** X3: the derived tags are none exactly when the normalized path has
    no folder in it; there are never more than two, two only in the
    split mode; and every one of them opens with the prefix and closes
    with the suffix. *)
Theorem derived_tags_shape p :
  (derive p = [] ↔ RawText.has_char "/" (normalizePath p) = false)
  ∧ (length (derive p) ≤ 2)%nat
  ∧ (length (derive p) = 2 → folderDepth settings = Depth2split)
  ∧ ∀ t, t ∈ derive p →
      ∃ mid, t = tagPrefix settings +:+ mid +:+ tagSuffix settings.
Proof.
  split; [apply derive_nil |].
  unfold Frontmatter.getFolderTagsFromPath, tags_of_parts.
  set (parts := JS.slice_0_m1 _).
  destruct (length parts =? 0)%nat; [repeat split; simpl; try lia; try done;
    intros t Ht; inversion Ht |].
  destruct (folderDepth settings) eqn:Hd;
    try destruct (2 <=? length parts)%nat;
    (split; [simpl; lia |]); (split; [simpl; try done; lia |]);
    intros t Ht; repeat (apply elem_of_cons in Ht as [->|Ht]);
    try (by inversion Ht); try (by eexists).
  exists (JS.at_ parts (length parts - 2) +:+ "/"
          +:+ JS.at_ parts (length parts - 1)).
  by rewrite !append_assoc.
Qed.

(** X5: in the full mode the one tag is the folder path of the note as
    it stands before the last slash, between prefix and suffix. *)
Theorem full_mode_folder_path p dir name :
  folderDepth settings = DepthFull →
  normalizePath p = dir +:+ String "/" name →
  RawText.has_char "/" name = false →
  derive p = [tagPrefix settings +:+ dir +:+ tagSuffix settings].
Proof.
  intros Hd Hp Hn. unfold Frontmatter.getFolderTagsFromPath.
  rewrite Hp, split_snoc, slice_snoc by done.
  unfold tags_of_parts. rewrite Hd.
  destruct (split_cons "/" dir) as (w & ws & Hs). rewrite Hs. simpl length.
  simpl Nat.eqb. cbv iota. by rewrite <- Hs, (join_split "/" dir).
Qed.

(** X6: in the single mode the one tag is the name of the folder that
    holds the note, between prefix and suffix, however deep the folder
    lies. *)
Theorem single_mode_folder_name p up folder name :
  folderDepth settings = Depth1 →
  normalizePath p = up +:+ folder +:+ String "/" name →
  up = "" ∨ (∃ up', up = up' +:+ "/") →
  RawText.has_char "/" folder = false →
  RawText.has_char "/" name = false →
  derive p = [tagPrefix settings +:+ folder +:+ tagSuffix settings].
Proof.
  intros Hd Hp Hup Hf Hn. unfold Frontmatter.getFolderTagsFromPath.
  rewrite Hp, <- append_assoc, split_snoc, slice_snoc by done.
  assert (∃ l, JS.split "/" (up +:+ folder) = l ++ [folder]) as [l Hl].
  { destruct Hup as [->|[up' ->]].
    - exists []. rewrite append_nil_l. by apply split_plain.
    - exists (JS.split "/" up'). rewrite append_assoc.
      by apply (split_snoc "/" up' folder). }
  rewrite Hl. unfold tags_of_parts. rewrite Hd, length_app. simpl length.
  replace (length l + 1 =? 0)%nat with false
    by (symmetry; apply Nat.eqb_neq; lia).
  unfold JS.at_. replace (length l + 1 - 1) with (length l + 0) by lia.
  by rewrite lookup_app_r, Nat.add_sub' by lia.
Qed.

End Derivation.

Lemma full_mode_folder_path_witness :
  let st := with_depth DepthFull DEFAULT_SETTINGS in
  (folderDepth st = DepthFull
   ∧ id "main/sub/last/note.md" = "main/sub/last" +:+ String "/" "note.md"
   ∧ RawText.has_char "/" "note.md" = false)
  ∧ Frontmatter.getFolderTagsFromPath id st "main/sub/last/note.md"
    = ["" +:+ "main/sub/last" +:+ ""].
Proof.
  intros st. split; [repeat split |].
  apply (full_mode_folder_path id st "main/sub/last/note.md"
           "main/sub/last" "note.md"); reflexivity.
Defined.

Lemma single_mode_folder_name_witness :
  (folderDepth DEFAULT_SETTINGS = Depth1
   ∧ id "main/sub/last/note.md"
     = "main/sub/" +:+ "last" +:+ String "/" "note.md"
   ∧ RawText.has_char "/" "last" = false
   ∧ RawText.has_char "/" "note.md" = false)
  ∧ Frontmatter.getFolderTagsFromPath id DEFAULT_SETTINGS
      "main/sub/last/note.md" = ["" +:+ "last" +:+ ""].
Proof.
  split; [repeat split |].
  apply (single_mode_folder_name id DEFAULT_SETTINGS "main/sub/last/note.md"
           "main/sub/" "last" "note.md");
    [reflexivity | reflexivity | right; by exists "main/sub" | reflexivity
    | reflexivity].
Defined.

(** ** Notes at the vault root *)

(** X4: a note whose normalized path has no folder is never handed to
    the host: [applyFolderTag] and [removeFolderTags] complete at once and
    leave the world as it is, whatever the state of the note. *)
Theorem root_notes_untouched normalizePath st file action oldPath w :
  RawText.has_char "/" (normalizePath (path file)) = false →
  Frontmatter.applyFolderTag normalizePath st file action oldPath w
    = (Done tt, w)
  ∧ Frontmatter.removeFolderTags normalizePath st file w = (Done tt, w).
Proof.
  intros H. apply (derive_nil normalizePath st) in H.
  unfold Frontmatter.applyFolderTag, Frontmatter.removeFolderTags,
    Frontmatter.getFolderTags.
  by rewrite H.
Qed.

Lemma root_notes_untouched_witness :
  let w := quiet [("n.md", {| fm := Malformed "tags: ["; body := "" |})] in
  RawText.has_char "/" (id "n.md") = false
  ∧ Frontmatter.applyFolderTag id DEFAULT_SETTINGS {| path := "n.md" |}
      Move (Some "work/n.md") w = (Done tt, w)
  ∧ Frontmatter.removeFolderTags id DEFAULT_SETTINGS {| path := "n.md" |} w
    = (Done tt, w).
Proof.
  intros w. split; [reflexivity |].
  apply (root_notes_untouched id DEFAULT_SETTINGS {| path := "n.md" |}
           Move (Some "work/n.md") w).
  reflexivity.
Defined.

(** ** Removal, and removal after application *)

Section Removal.
Variable normalizePath : string -> string.
Variable settings : FolderTagPluginSettings.
Implicit Types (tags l : list string) (yaml : gmap string yaml_value).

Local Abbreviation remove_mutator := Frontmatter.remove_mutator.
Local Abbreviation apply_mutator :=
  (Frontmatter.apply_mutator normalizePath settings).
Local Abbreviation existing_tags := Frontmatter.existing_tags.

Lemma without_app tags l1 l2 :
  without tags (l1 ++ l2) = without tags l1 ++ without tags l2.
Proof. unfold without. apply List.filter_app. Qed.

Lemma without_all tags l : (∀ t, t ∈ l → t ∈ tags) → without tags l = [].
Proof.
  intros H. unfold without. induction l as [|x l IH]; simpl; [done |].
  assert (JS.includes tags x = true) as ->
    by (apply includes_true, H; by left).
  simpl. apply IH. intros t Ht. apply H. by right.
Qed.

Lemma without_without tags l : without tags (without tags l) = without tags l.
Proof.
  unfold without. induction l as [|x l IH]; simpl; [done |].
  destruct (negb (JS.includes tags x)) eqn:E; simpl; [| done].
  by rewrite E, IH.
Qed.

Lemma existing_tags_stored l yaml :
  (∀ t, t ∈ l → trimmed t) →
  existing_tags (<["tags" := YSeq (map YStr l)]> yaml) = l.
Proof.
  intros H. unfold Frontmatter.existing_tags. rewrite lookup_insert_eq.
  rewrite map_map. simpl. by apply map_trim_fixed.
Qed.

(** Read back after the removal, the tags are the earlier ones that are
    not folder tags. *)
Lemma read_after_remove tags yaml :
  existing_tags (remove_mutator tags yaml) = without tags (existing_tags yaml).
Proof.
  unfold Frontmatter.remove_mutator.
  destruct (without tags (existing_tags yaml)) as [|x l] eqn:E; simpl.
  - unfold Frontmatter.existing_tags at 1. by rewrite lookup_delete_eq.
  - apply (existing_tags_stored (x :: l)). intros t Ht. rewrite <- E in Ht.
    apply elem_of_without in Ht as [Ht _].
    by apply (existing_tags_trimmed yaml).
Qed.

(** X7: removing the folder tags a second time changes nothing. *)
Theorem remove_mutator_idempotent tags yaml :
  remove_mutator tags (remove_mutator tags yaml) = remove_mutator tags yaml.
Proof.
  unfold Frontmatter.remove_mutator at 1.
  rewrite read_after_remove, without_without.
  unfold Frontmatter.remove_mutator.
  destruct (without tags (existing_tags yaml)) as [|x l]; simpl.
  - apply delete_delete_eq.
  - apply insert_insert_eq.
Qed.




End Removal.




(** ** The bulk passes, note by note *)

Section BulkPasses.
Variable normalizePath : string -> string.
Variable settings : FolderTagPluginSettings.
Implicit Types (v pre rest todo : list (string * document)).
Implicit Types (e : string * document) (p : string) (d : document).

Local Abbreviation tags_at :=
  (fun p => Frontmatter.getFolderTags normalizePath settings {| path := p |}).
Local Abbreviation reapplied_ := (reapplied normalizePath settings).
Local Abbreviation removed_ := (removed normalizePath settings).
Local Abbreviation unparsable_ := (unparsable normalizePath settings).
Local Abbreviation failed_notice :=
  (fun p : string => "Failed to process: " +:+ p).

Lemma vault_get_app p pre v :
  p ∉ map fst pre → vault_get p (pre ++ v) = vault_get p v.
Proof.
  induction pre as [|[q d] pre IH]; simpl; [done |].
  intros H. destruct (String.eqb p q) eqn:E.
  - apply String.eqb_eq in E. subst. exfalso. apply H. by left.
  - apply IH. intros Hin. apply H. by right.
Qed.

Lemma vault_set_app p d pre v :
  p ∉ map fst pre → vault_set p d (pre ++ v) = pre ++ vault_set p d v.
Proof.
  induction pre as [|[q d'] pre IH]; simpl; [done |].
  intros H. destruct (String.eqb p q) eqn:E.
  - apply String.eqb_eq in E. subst. exfalso. apply H. by left.
  - rewrite IH; [done |]. intros Hin. apply H. by right.
Qed.

Lemma processFrontMatter_at p d pre rest ns cs fn :
  p ∉ map fst pre →
  processFrontMatter {| path := p |} fn
    {| vault := pre ++ (p, d) :: rest; notices := ns; console := cs |}
  = match fm d with
    | Parsed yaml =>
        (Done tt,
         {| vault := pre ++ (p, {| fm := Parsed (fn yaml); body := body d |})
                           :: rest;
            notices := ns; console := cs |})
    | Malformed _ =>
        (Thrown "cannot parse the metadata block",
         {| vault := pre ++ (p, d) :: rest; notices := ns; console := cs |})
    end.
Proof.
  intros Hp. unfold processFrontMatter. simpl.
  rewrite vault_get_app by done. simpl. rewrite String.eqb_refl.
  destruct (fm d); [| done].
  rewrite vault_set_app by done. simpl. by rewrite String.eqb_refl.
Qed.

Lemma fst_reapplied e : (reapplied_ e).1 = e.1.
Proof.
  unfold reapplied. destruct (Frontmatter.getFolderTags _ _ _); [done |].
  by destruct (fm e.2).
Qed.

Lemma fst_removed e : (removed_ e).1 = e.1.
Proof.
  unfold removed. destruct (Frontmatter.getFolderTags _ _ _); [done |].
  by destruct (fm e.2).
Qed.

Lemma unparsable_cons e v :
  unparsable_ (e :: v) = unparsable_ [e] ++ unparsable_ v.
Proof. unfold unparsable. simpl. by rewrite app_nil_r. Qed.

(** One turn of the reapply loop. *)
Lemma reapply_turn p d pre rest ns cs :
  p ∉ map fst pre →
  ∃ cs',
    try_catch
      (Frontmatter.applyFolderTag normalizePath settings {| path := p |}
         Rerun None)
      (fun err =>
         console_error ("Failed for file: " +:+ p +:+ " " +:+ err) ;;
         Notice ("Failed to process: " +:+ p))
      {| vault := pre ++ (p, d) :: rest; notices := ns; console := cs |}
    = (Done tt,
       {| vault := pre ++ reapplied_ (p, d) :: rest;
          notices := ns ++ map failed_notice (unparsable_ [(p, d)]);
          console := cs' |}).
Proof.
  intros Hp. unfold try_catch, Frontmatter.applyFolderTag, reapplied,
    unparsable. simpl.
  destruct (Frontmatter.getFolderTags normalizePath settings {| path := p |})
    as [|t ts] eqn:Ht; simpl.
  - exists cs. by rewrite app_nil_r.
  - rewrite processFrontMatter_at by done.
    destruct (fm d) as [yaml|raw]; simpl.
    + exists cs. by rewrite app_nil_r.
    + eexists. reflexivity.
Qed.

Lemma reapply_loop todo :
  ∀ pre ns cs,
    NoDup (map fst (pre ++ todo)) →
    ∃ cs',
      for_of (map (fun e => {| path := e.1 |}) todo)
        (fun file =>
           try_catch
             (Frontmatter.applyFolderTag normalizePath settings file Rerun None)
             (fun err =>
                console_error
                  ("Failed for file: " +:+ path file +:+ " " +:+ err) ;;
                Notice ("Failed to process: " +:+ path file)))
        {| vault := pre ++ todo; notices := ns; console := cs |}
      = (Done tt,
         {| vault := pre ++ map reapplied_ todo;
            notices := ns ++ map failed_notice (unparsable_ todo);
            console := cs' |}).
Proof.
  induction todo as [|[p d] todo IH]; intros pre ns cs Hnd.
  - exists cs. simpl. by rewrite !app_nil_r.
  - assert (p ∉ map fst pre) as Hp.
    { rewrite map_app in Hnd. simpl in Hnd.
      apply NoDup_app in Hnd as (_ & Hdis & _).
      intros Hin. apply (Hdis p Hin). by left. }
    destruct (reapply_turn p d pre todo ns cs Hp) as [cs1 H1].
    destruct (IH (pre ++ [reapplied_ (p, d)])
                (ns ++ map failed_notice (unparsable_ [(p, d)])) cs1)
      as [cs2 H2].
    { rewrite <- app_assoc. rewrite !map_app in *.
      change (map fst [reapplied_ (p, d)]) with [(reapplied_ (p, d)).1].
      rewrite fst_reapplied. exact Hnd. }
    exists cs2. cbn [map for_of]. erewrite bind_done by exact H1.
    rewrite (cons_middle (reapplied_ (p, d)) pre todo), app_assoc, H2.
    f_equal. f_equal.
    + by rewrite <- app_assoc.
    + by rewrite (unparsable_cons (p, d) todo), map_app, app_assoc.
Qed.

Lemma added_tags_present (ex tags : list string) t :
  t ∈ tags → t ∈ add_folder_tags ex tags.
Proof.
  intros Ht. destruct (add_folder_tags_shape ex tags)
    as (added & -> & _ & _ & Hmem).
  apply elem_of_app. destruct (decide (t ∈ ex)); [by left | right].
  by apply Hmem.
Qed.


(** One turn of the removal loop on a note it does not fail on. *)
Lemma remove_turn p d pre rest ns cs :
  p ∉ map fst pre →
  unparsable_ [(p, d)] = [] →
  Frontmatter.removeFolderTags normalizePath settings {| path := p |}
    {| vault := pre ++ (p, d) :: rest; notices := ns; console := cs |}
  = (Done tt,
     {| vault := pre ++ removed_ (p, d) :: rest;
        notices := ns; console := cs |}).
Proof.
  intros Hp Hok. unfold Frontmatter.removeFolderTags, removed,
    unparsable in *. simpl in *.
  destruct (Frontmatter.getFolderTags normalizePath settings {| path := p |})
    as [|t ts] eqn:Ht; simpl; [done |].
  rewrite processFrontMatter_at by done.
  by destruct (fm d) as [yaml|raw].
Qed.

Lemma remove_loop todo :
  ∀ pre ns cs,
    NoDup (map fst (pre ++ todo)) →
    unparsable_ todo = [] →
    for_of (map (fun e => {| path := e.1 |}) todo)
      (fun file => Frontmatter.removeFolderTags normalizePath settings file)
      {| vault := pre ++ todo; notices := ns; console := cs |}
    = (Done tt,
       {| vault := pre ++ map removed_ todo; notices := ns; console := cs |}).
Proof.
  induction todo as [|[p d] todo IH]; intros pre ns cs Hnd Hok.
  - simpl. by rewrite app_nil_r.
  - assert (p ∉ map fst pre) as Hp.
    { rewrite map_app in Hnd. simpl in Hnd.
      apply NoDup_app in Hnd as (_ & Hdis & _).
      intros Hin. apply (Hdis p Hin). by left. }
    rewrite unparsable_cons in Hok. apply app_eq_nil in Hok as [Hok1 Hok2].
    cbn [map for_of].
    erewrite bind_done by exact (remove_turn p d pre todo ns cs Hp Hok1).
    rewrite (cons_middle (removed_ (p, d)) pre todo), app_assoc.
    rewrite (IH (pre ++ [removed_ (p, d)]) ns cs).
    + f_equal. f_equal. by rewrite <- app_assoc.
    + rewrite <- app_assoc. rewrite !map_app in *.
      change (map fst [removed_ (p, d)]) with [(removed_ (p, d)).1].
      rewrite fst_removed. exact Hnd.
    + done.
Qed.


End BulkPasses.



(** ** The earlier revision: what its patterns match *)

Section Fences.
Implicit Types (s pat b a r : string).

Lemma strip_prefix_sound pat s r :
  JS.strip_prefix pat s = Some r → s = pat +:+ r.
Proof.
  revert s. induction pat as [|c pat IH]; intros s; simpl.
  - by intros [= ->].
  - destruct s as [|c' s]; [done |].
    destruct (Ascii.eqb c c') eqn:E; [| done].
    apply Ascii.eqb_eq in E. subst c'. intros H.
    by rewrite append_cons, <- (IH s H).
Qed.

Lemma strip_prefix_complete pat r : JS.strip_prefix pat (pat +:+ r) = Some r.
Proof.
  induction pat as [|c pat IH]; [by destruct r |].
  rewrite append_cons. simpl. by rewrite Ascii.eqb_refl.
Qed.

Lemma find_sub_sound pat s b a :
  JS.find_sub pat s = Some (b, a) → s = b +:+ pat +:+ a.
Proof.
  revert b. induction s as [|c s IH]; intros b.
  - simpl. destruct (JS.strip_prefix pat "") as [r|] eqn:E; [| done].
    intros [= <- <-]. by apply strip_prefix_sound in E.
  - simpl. destruct (JS.strip_prefix pat (String c s)) as [r|] eqn:E.
    + intros [= <- <-]. by apply strip_prefix_sound in E.
    + destruct (JS.find_sub pat s) as [[b' a']|] eqn:E'; [| done].
      intros [= <- <-]. rewrite append_cons. f_equal. by apply IH.
Qed.

Lemma find_sub_complete pat b a : is_Some (JS.find_sub pat (b +:+ pat +:+ a)).
Proof.
  induction b as [|c b IH].
  - rewrite append_nil_l. destruct (pat +:+ a) eqn:E; simpl;
      rewrite <- E, strip_prefix_complete; eauto.
  - rewrite append_cons. simpl.
    destruct (JS.strip_prefix pat _); [eauto |].
    destruct IH as [[b' a'] ->]. eauto.
Qed.

(** The match stops at the first closing fence: no fence starts inside
    the group. *)
Lemma find_sub_first pat s b a :
  JS.find_sub pat s = Some (b, a) →
  ∀ b1 b2, b = b1 +:+ b2 → b2 ≠ "" →
    JS.strip_prefix pat (b2 +:+ pat +:+ a) = None.
Proof.
  revert b. induction s as [|c s IH]; intros b.
  - simpl. destruct (JS.strip_prefix pat ""); [| done].
    intros [= <- <-] b1 b2 Hb. destruct b1, b2; done.
  - simpl. destruct (JS.strip_prefix pat (String c s)) as [r|] eqn:E.
    + intros [= <- <-] b1 b2 Hb. destruct b1, b2; done.
    + destruct (JS.find_sub pat s) as [[b' a']|] eqn:E'; [| done].
      intros [= <- <-] b1 b2 Hb Hne.
      pose proof (find_sub_sound _ _ _ _ E') as Hs.
      destruct b1 as [|c1 b1].
      * rewrite append_nil_l in Hb. subst b2.
        by rewrite append_cons, <- Hs.
      * rewrite append_cons in Hb. injection Hb as <- ->.
        by apply (IH _ eq_refl b1 b2).
Qed.

(** X13: the pattern for the metadata block matches exactly the texts
    that open with the fence line and hold a closing fence after it; the
    group is what lies between the opening fence and the first closing
    one, and the rest is what follows that one. *)
Theorem match_yaml_decomposes content :
  (∀ yamlStr rest,
     RawText.match_yaml content = Some (yamlStr, rest) →
     content = "---" +:+ RawText.LF +:+ yamlStr +:+ RawText.LF +:+ "---"
               +:+ rest
     ∧ ∀ y1 y2, yamlStr = y1 +:+ y2 → y2 ≠ "" →
         JS.strip_prefix (RawText.LF +:+ "---")
           (y2 +:+ RawText.LF +:+ "---" +:+ rest) = None)
  ∧ (RawText.match_yaml content = None ↔
     ¬ ∃ yamlStr rest,
         content = "---" +:+ RawText.LF +:+ yamlStr +:+ RawText.LF +:+ "---"
                   +:+ rest).
Proof.
  unfold RawText.match_yaml. split.
  - intros yamlStr rest H.
    destruct (JS.strip_prefix ("---" +:+ RawText.LF) content) as [inner|] eqn:E;
      [| done].
    apply strip_prefix_sound in E. split.
    + apply find_sub_sound in H. subst inner.
      by rewrite E, !append_assoc.
    + intros y1 y2 Hy Hne.
      pose proof (find_sub_first _ _ _ _ H y1 y2 Hy Hne) as Hf.
      by rewrite !append_assoc in Hf.
  - split.
    + intros H (yamlStr & rest & ->).
      change ("---" +:+ RawText.LF +:+ yamlStr +:+ RawText.LF +:+ "---" +:+ rest)
        with (("---" +:+ RawText.LF)
              +:+ (yamlStr +:+ (RawText.LF +:+ "---") +:+ rest)) in H.
      rewrite strip_prefix_complete in H.
      destruct (find_sub_complete (RawText.LF +:+ "---") yamlStr rest)
        as [x Hx].
      by rewrite Hx in H.
    + intros H.
      destruct (JS.strip_prefix ("---" +:+ RawText.LF) content) as [inner|] eqn:E;
        [| done].
      destruct (JS.find_sub _ inner) as [[y r]|] eqn:E'; [| done].
      exfalso. apply H. exists y, r.
      apply strip_prefix_sound in E. apply find_sub_sound in E'.
      subst inner. by rewrite E, !append_assoc.
Qed.

End Fences.

(** ** Tags written as comma-separated text and read again *)

Section CommaText.
Implicit Types (s t : string) (tags : list string).

(** The first piece of [x,rest], for an [x] without the separator. *)
Lemma split_head sep x rest :
  RawText.has_char sep x = false →
  JS.split sep (x +:+ String sep rest) = x :: JS.split sep rest.
Proof.
  induction x as [|c x IH]; intros H.
  - rewrite append_nil_l. simpl. by rewrite Ascii.eqb_refl.
  - simpl in H. apply orb_false_iff in H as [Hc Hx].
    rewrite append_cons. simpl. by rewrite Hc, IH.
Qed.

(** A blank in front of the text only shows in the first piece, where
    trimming drops it. *)
Lemma trim_split_blank s :
  map JS.trim (JS.split "," (String " " s)) = map JS.trim (JS.split "," s).
Proof.
  simpl. destruct (split_cons "," s) as (w & ws & ->). done.
Qed.

Lemma comma_round_trip tags :
  tags ≠ [] →
  (∀ t, t ∈ tags → trimmed t ∧ RawText.has_char "," t = false) →
  map JS.trim (JS.split "," (JS.join ", " tags)) = tags.
Proof.
  induction tags as [|x tags IH]; [done |]. intros _ H.
  assert (trimmed x ∧ RawText.has_char "," x = false) as [Hx Hc]
    by (apply H; by left).
  destruct tags as [|y tags].
  - simpl. rewrite split_plain by done. simpl. by rewrite trim_fixed.
  - change (JS.join ", " (x :: y :: tags))
      with (x +:+ String "," (String " " (JS.join ", " (y :: tags)))).
    rewrite split_head by done.
    rewrite map_cons, trim_fixed by done. f_equal.
    rewrite trim_split_blank. apply IH; [done |].
    intros t Ht. apply H. by right.
Qed.


End CommaText.


(** ** The old folder and the tags derived from the old path *)

(** X15: under the single mode with empty prefix and suffix, the folder
    name the earlier revision strips on a move is the one tag derived
    from the old path, and there is none to strip exactly when nothing is
    derived. *)
Theorem old_folder_is_derived_tag st oldPath :
  folderDepth st = Depth1 →
  tagPrefix st = "" →
  tagSuffix st = "" →
  RawText.getFolderTags st {| path := oldPath |}
  = match RawText.old_folder oldPath with
    | Some o => [o]
    | None => []
    end.
Proof.
  intros Hd Hp Hs.
  unfold RawText.getFolderTags, RawText.old_folder, tags_of_parts,
    JS.slice_0_m1, JS.at_. simpl path.
  rewrite Hd, Hp, Hs.
  destruct (split_cons "/" oldPath) as (w & ws & ->).
  destruct ws as [|w' ws]; [done |].
  rewrite length_take. simpl length.
  replace (S (S (length ws)) - 1) with (S (length ws)) by lia.
  replace (S (length ws) `min` S (S (length ws))) with (S (length ws)) by lia.
  cbn [Nat.eqb Nat.leb].
  replace (S (length ws) - 1) with (length ws) by lia.
  replace (S (S (length ws)) - 2) with (length ws) by lia.
  rewrite lookup_take_lt by lia.
  destruct ((w :: w' :: ws) !! length ws) as [o|] eqn:E.
  - simpl. by rewrite append_nil_l, append_nil_r.
  - apply lookup_ge_None in E. simpl in E. lia.
Qed.

Lemma old_folder_is_derived_tag_witness :
  (folderDepth DEFAULT_SETTINGS = Depth1
   ∧ tagPrefix DEFAULT_SETTINGS = ""
   ∧ tagSuffix DEFAULT_SETTINGS = "")
  ∧ RawText.getFolderTags DEFAULT_SETTINGS {| path := "main/work/n.md" |}
    = match RawText.old_folder "main/work/n.md" with
      | Some o => [o]
      | None => []
      end.
Proof.
  split; [repeat split |].
  apply (old_folder_is_derived_tag DEFAULT_SETTINGS "main/work/n.md");
    reflexivity.
Defined.

(** ** The earlier revision: the inline line *)

Section InlineLine.
Implicit Types (s g r b a : string) (k : RawText.cont).

Lemma take_line_spec s :
  s = (RawText.take_line s).1 +:+ (RawText.take_line s).2
  ∧ one_line (RawText.take_line s).1 = true
  ∧ at_line_end (RawText.take_line s).2 = true.
Proof.
  induction s as [|c s (IH1 & IH2 & IH3)]; simpl; [done |].
  destruct (JS.is_line_terminator c) eqn:E; simpl; [by rewrite E |].
  destruct (RawText.take_line s) as [l r]. simpl in *.
  rewrite E. simpl. split; [by rewrite append_cons, <- IH1 | done].
Qed.

Lemma re_dot_plus_eol_sound s g r :
  RawText.re_dot_plus_eol s = Some (g, r) →
  s = g +:+ r ∧ g ≠ "" ∧ one_line g = true ∧ at_line_end r = true.
Proof.
  unfold RawText.re_dot_plus_eol.
  destruct (take_line_spec s) as (H1 & H2 & H3).
  destruct (RawText.take_line s) as [[|c l] r']; [done |].
  intros [= <- <-]. done.
Qed.

Lemma re_lit_sound p k s x :
  RawText.re_lit p k s = Some x → ∃ s', s = p +:+ s' ∧ k s' = Some x.
Proof.
  unfold RawText.re_lit.
  destruct (JS.strip_prefix p s) as [s'|] eqn:E; [| done].
  intros H. exists s'. split; [by apply strip_prefix_sound | done].
Qed.

Lemma re_ws_star_sound k s x :
  RawText.re_ws_star k s = Some x →
  ∃ ws s', s = ws +:+ s' ∧ all_white ws = true ∧ k s' = Some x.
Proof.
  induction s as [|c s IH]; simpl.
  - intros H. by exists "", "".
  - destruct (JS.is_white_space c) eqn:E.
    + destruct (RawText.re_ws_star k s) as [y|] eqn:E'.
      * intros [= <-]. destruct (IH eq_refl) as (ws & s' & -> & Hws & Hk).
        exists (String c ws), s'. simpl. by rewrite E.
      * intros H. by exists "", (String c s).
    + intros H. by exists "", (String c s).
Qed.

Lemma re_opt_sound p k s x :
  RawText.re_opt p k s = Some x →
  (∃ s', s = p +:+ s' ∧ k s' = Some x) ∨ k s = Some x.
Proof.
  unfold RawText.re_opt.
  destruct (RawText.re_lit p k s) as [y|] eqn:E; [| by right].
  intros [= <-]. left. by apply re_lit_sound.
Qed.

Lemma match_inline_here_sound s g r :
  RawText.match_inline_here s = Some (g, r) →
  ∃ ws1 colons ws2,
    s = "tags" +:+ ws1 +:+ colons +:+ ws2 +:+ g +:+ r
    ∧ all_white ws1 = true
    ∧ (colons = ":" ∨ colons = "::")
    ∧ all_white ws2 = true
    ∧ g ≠ "" ∧ one_line g = true ∧ at_line_end r = true.
Proof.
  unfold RawText.match_inline_here. intros H.
  apply re_lit_sound in H as (s1 & -> & H).
  apply re_ws_star_sound in H as (ws1 & s2 & -> & Hw1 & H).
  apply re_lit_sound in H as (s3 & -> & H).
  apply re_opt_sound in H as [(s4 & -> & H)|H];
    apply re_ws_star_sound in H as (ws2 & s5 & -> & Hw2 & H);
    apply re_dot_plus_eol_sound in H as (-> & Hg & Hl & He).
  - exists ws1, "::", ws2.
    split; [reflexivity |].
    split; [done |]. split; [by right |]. done.
  - exists ws1, ":", ws2.
    split; [reflexivity |].
    split; [done |]. split; [by left |]. done.
Qed.

Lemma search_inline_sound s :
  ∀ bol b g r,
    RawText.search_inline bol s = Some (b, g, r) →
    ∃ m, s = b +:+ m
         ∧ RawText.match_inline_here m = Some (g, r)
         ∧ (b = "" → bol = true)
         ∧ (b ≠ "" →
            ∃ b' c, b = b' +:+ String c ""
                    ∧ JS.is_line_terminator c = true).
Proof.
  induction s as [|c s IH]; intros bol b g r.
  - simpl. destruct bol; [| done].
    destruct (RawText.match_inline_here "") as [[g' r']|] eqn:E; [| done].
    intros [= <- <- <-]. by exists "".
  - simpl.
    destruct (if bol then RawText.match_inline_here (String c s) else None)
      as [[g' r']|] eqn:E.
    + intros [= <- <- <-]. exists (String c s).
      destruct bol; [| done]. done.
    + destruct (RawText.search_inline (JS.is_line_terminator c) s)
        as [[[b0 g0] r0]|] eqn:E'; [| done].
      intros [= <- <- <-].
      destruct (IH _ _ _ _ E') as (m & -> & Hm & Hbol & Hend).
      exists m. split; [done |]. split; [done |]. split; [done |].
      intros _. destruct b0 as [|c0 b0].
      * exists "", c. split; [done |]. by apply Hbol.
      * destruct Hend as (b' & c' & Hb & Hc); [done |].
        exists (String c b'), c'. by rewrite append_cons, <- Hb.
Qed.

Lemma match_inline_parts content before group after :
  RawText.match_inline content = Some (before, group, after) →
  ∃ ws1 colons ws2,
    content = before +:+ "tags" +:+ ws1 +:+ colons +:+ ws2 +:+ group
              +:+ after
    ∧ all_white ws1 = true
    ∧ (colons = ":" ∨ colons = "::")
    ∧ all_white ws2 = true
    ∧ group ≠ "" ∧ one_line group = true
    ∧ at_line_start before ∧ at_line_end after = true.
Proof.
  unfold RawText.match_inline. intros H.
  apply search_inline_sound in H as (m & -> & Hm & _ & Hend).
  apply match_inline_here_sound in Hm
    as (ws1 & colons & ws2 & -> & Hw1 & Hc & Hw2 & Hg & Hl & He).
  exists ws1, colons, ws2. repeat (split; [done |]). split; [| done].
  unfold at_line_start. destruct before as [|c b]; [by left | right].
  by apply Hend.
Qed.

(** X16: when the inline pattern matches, the text is the part before
    the match, then [tags], white space, one or two colons, white space
    and the group, then the part after; the group is not empty and holds
    no line terminator, the match starts at the start of a line and ends
    at the end of one. *)
Theorem inline_match_shape content before group after :
  RawText.match_inline content = Some (before, group, after) →
  ∃ ws1 colons ws2,
    content = before +:+ "tags" +:+ ws1 +:+ colons +:+ ws2 +:+ group
              +:+ after
    ∧ all_white ws1 = true
    ∧ (colons = ":" ∨ colons = "::")
    ∧ all_white ws2 = true
    ∧ group ≠ "" ∧ one_line group = true
    ∧ at_line_start before ∧ at_line_end after = true.
Proof. apply match_inline_parts. Qed.

End InlineLine.

Lemma inline_match_shape_witness :
  let content :=
    "intro" +:+ RawText.LF +:+ "tags ::  a, b" +:+ RawText.LF +:+ "body" in
  RawText.match_inline content
    = Some ("intro" +:+ RawText.LF, "a, b", RawText.LF +:+ "body")
  ∧ ∃ ws1 colons ws2,
      content = ("intro" +:+ RawText.LF) +:+ "tags" +:+ ws1 +:+ colons
                +:+ ws2 +:+ "a, b" +:+ (RawText.LF +:+ "body")
      ∧ all_white ws1 = true
      ∧ (colons = ":" ∨ colons = "::")
      ∧ all_white ws2 = true
      ∧ "a, b" ≠ "" ∧ one_line "a, b" = true
      ∧ at_line_start ("intro" +:+ RawText.LF)
      ∧ at_line_end (RawText.LF +:+ "body") = true.
Proof.
  intros content. split; [reflexivity |].
  apply (inline_match_shape content ("intro" +:+ RawText.LF) "a, b"
           (RawText.LF +:+ "body")).
  reflexivity.
Defined.

(** ** The earlier revision: what a rewrite of the inline line keeps *)

Section InlineRewrite.
Implicit Types (s x : string) (c sep : ascii) (l : list string).

Lemma has_char_trimStart c s :
  RawText.has_char c s = false → RawText.has_char c (JS.trimStart s) = false.
Proof.
  induction s as [|a s IH]; simpl; [done |].
  intros H. destruct (JS.is_white_space a); [| done].
  apply orb_false_iff in H as [_ H]. by apply IH.
Qed.

Lemma has_char_trimEnd c s :
  RawText.has_char c s = false → RawText.has_char c (JS.trimEnd s) = false.
Proof.
  induction s as [|a s IH]; simpl; [done |].
  intros H. apply orb_false_iff in H as [Ha Hs]. specialize (IH Hs).
  destruct (JS.trimEnd s) as [|b t].
  - destruct (JS.is_white_space a); simpl; [done | by rewrite Ha].
  - simpl in *. by rewrite Ha, IH.
Qed.

Lemma has_char_trim c s :
  RawText.has_char c s = false → RawText.has_char c (JS.trim s) = false.
Proof. intros H. by apply has_char_trimEnd, has_char_trimStart. Qed.

Lemma has_char_split c sep s x :
  RawText.has_char c s = false → x ∈ JS.split sep s →
  RawText.has_char c x = false.
Proof.
  revert x. induction s as [|a s IH]; intros x; simpl.
  - intros _ Hx. by apply list_elem_of_singleton in Hx as ->.
  - intros H. apply orb_false_iff in H as [Ha Hs].
    destruct (Ascii.eqb a sep).
    + intros Hx. apply elem_of_cons in Hx as [->|Hx]; [done | by apply IH].
    + destruct (JS.split sep s) as [|w ws] eqn:E.
      * intros Hx. apply list_elem_of_singleton in Hx as ->. simpl.
        by rewrite Ha.
      * intros Hx. apply elem_of_cons in Hx as [->|Hx].
        -- simpl. rewrite Ha. apply IH; [done | by left].
        -- apply IH; [done | by right].
Qed.

Lemma has_char_join c (glue : string) l :
  RawText.has_char c glue = false →
  (∀ x, x ∈ l → RawText.has_char c x = false) →
  RawText.has_char c (JS.join glue l) = false.
Proof.
  intros Hglue. induction l as [|x l IH]; intros H; [done |].
  assert (RawText.has_char c x = false) as Hx by (apply H; by left).
  destruct l as [|y l]; [done |].
  change (JS.join glue (x :: y :: l))
    with (x +:+ glue +:+ JS.join glue (y :: l)).
  rewrite !has_char_app, Hx, Hglue, IH; [done |].
  intros z Hz. apply H. by right.
Qed.

Lemma has_char_pieces c group t :
  RawText.has_char c group = false →
  t ∈ map JS.trim (JS.split "," group) →
  RawText.has_char c t = false.
Proof.
  intros Hg Ht. apply list_elem_of_fmap in Ht as (x & -> & Hx).
  apply has_char_trim. by apply (has_char_split c "," group).
Qed.



End InlineRewrite.


(** ** The earlier revision: the block it writes is a block it reads *)

Section NewBlock.
Implicit Types (s t a : string) (tags : list string).

Lemma lf_then_blank_line s : one_line s = true → lf_then_blank s = true.
Proof.
  induction s as [|c s IH]; simpl; [done |].
  intros H. apply andb_true_iff in H as [Hc Hs]. rewrite IH by done.
  destruct (Ascii.eqb c "010") eqn:E; [| done].
  apply Ascii.eqb_eq in E. by subst c.
Qed.

Lemma lf_then_blank_app s t :
  one_line s = true → lf_then_blank t = true →
  lf_then_blank (s +:+ t) = true.
Proof.
  induction s as [|c s IH]; intros Hs Ht; [done |].
  simpl in Hs. apply andb_true_iff in Hs as [Hc Hs].
  rewrite append_cons. simpl. rewrite IH by done.
  destruct (Ascii.eqb c "010") eqn:E; [| done].
  apply Ascii.eqb_eq in E. by subst c.
Qed.

(** The lines of the block, [  - t] for each tag: they start with a
    blank and every line feed among them is followed by one. *)
Lemma block_lines_blank tags :
  tags ≠ [] →
  (∀ t, t ∈ tags → one_line t = true) →
  (∃ rest,
     JS.join RawText.LF (map (fun t => "  - " +:+ t) tags) = String " " rest)
  ∧ lf_then_blank (JS.join RawText.LF (map (fun t => "  - " +:+ t) tags))
    = true.
Proof.
  induction tags as [|x tags IH]; [done |]. intros _ H.
  assert (one_line x = true) as Hx by (apply H; by left).
  destruct tags as [|y tags].
  - simpl. split; [by eexists |]. by apply (lf_then_blank_line ("  - " +:+ x)).
  - destruct IH as ([rest Hrest] & Hlb); [done | |].
    { intros t Ht. apply H. by right. }
    change (JS.join RawText.LF (map (fun t => "  - " +:+ t) (x :: y :: tags)))
      with (("  - " +:+ x)
            +:+ RawText.LF
            +:+ JS.join RawText.LF (map (fun t => "  - " +:+ t) (y :: tags))).
    split; [by eexists |].
    apply (lf_then_blank_app ("  - " +:+ x)); [exact Hx |].
    rewrite Hrest in *. simpl. simpl in Hlb. exact Hlb.
Qed.

Lemma strip_prefix_cons p pat c s :
  JS.strip_prefix (String p pat) (String c s)
  = if Ascii.eqb p c then JS.strip_prefix pat s else None.
Proof. reflexivity. Qed.

Lemma find_sub_cons pat c s :
  JS.find_sub pat (String c s)
  = match JS.strip_prefix pat (String c s) with
    | Some rest => Some ("", rest)
    | None =>
        match JS.find_sub pat s with
        | Some (b, a) => Some (String c b, a)
        | None => None
        end
    end.
Proof. reflexivity. Qed.

(** In such a text no closing fence starts, so the first one is the one
    that follows it. *)
Lemma find_fence_after s a :
  lf_then_blank s = true →
  JS.find_sub (RawText.LF +:+ "---") (s +:+ (RawText.LF +:+ "---") +:+ a)
  = Some (s, a).
Proof.
  induction s as [|c s IH]; intros H.
  - rewrite append_nil_l.
    change ((RawText.LF +:+ "---") +:+ a)
      with (String "010" (String "-" (String "-" (String "-" a)))).
    reflexivity.
  - change (lf_then_blank (String c s))
      with ((if Ascii.eqb c "010" then
               match s with
               | String d _ => Ascii.eqb d " "
               | "" => false
               end
             else true) && lf_then_blank s) in H.
    apply andb_true_iff in H as [Hc Hs].
    rewrite append_cons, find_sub_cons.
    assert (JS.strip_prefix (RawText.LF +:+ "---")
              (String c (s +:+ (RawText.LF +:+ "---") +:+ a)) = None) as ->.
    { change (RawText.LF +:+ "---")
        with (String "010" (String "-" (String "-" (String "-" "")))).
      rewrite strip_prefix_cons, (Ascii.eqb_sym "010" c).
      destruct (Ascii.eqb c "010"); [| done].
      destruct s as [|d s]; [done |].
      apply Ascii.eqb_eq in Hc. subst d.
      by rewrite append_cons, strip_prefix_cons. }
    by rewrite (IH Hs).
Qed.


End NewBlock.

